(** * seed-database.ts: the batch ingestion pipeline

    A shallow embedding of [src/server/seed-database.ts]: the Zod record
    schema, the summary builder, the batch loop of [processBatch] and the
    top-level [seedDatabase], followed by the properties of the seeding run.

    JavaScript values are modelled as follows.  A [number] is an IEEE-754
    binary64, i.e. Rocq's primitive [float].  A string is a [string].  An
    array is a [list].  The loop index and the batch size of [processBatch]
    are integral numbers, modelled as [Z] (the only call site passes [3]).
    An [async] function is a computation in the monad [M], which threads the
    state of the outside world, records the observable events of the run in
    order, and ends normally, with a thrown error, or not at all.

    The embedding starts where [seedDatabase] is called: the check of the
    environment variables and the construction of the clients, which come
    before it when the module is loaded, and the [.catch(console.error)] put
    on its promise are left out. *)

From Stdlib Require Import String Ascii List ZArith Lia Bool PrimFloat.
Import ListNotations.

Local Open Scope string_scope.
Local Open Scope Z_scope.
Local Open Scope list_scope.

Set Warnings "-register-all".

(** ** Records (the [Item] type inferred from [itemSchema]) *)

Record Address := mkAddress {
  street : string;
  city : string;
  state : string;
  postal_code : string;
  country : string
}.

Record Prices := mkPrices {
  full_price : float;
  sale_price : float
}.

Record Review := mkReview {
  review_date : string;
  rating : float;
  comment : string
}.

Record Item := mkItem {
  item_id : string;
  item_name : string;
  item_description : string;
  brand : string;
  manufacturer_address : Address;
  prices : Prices;
  categories : list string;
  user_reviews : list Review;
  notes : string
}.

(** ** Parsed JSON values, the input of the schema *)

Inductive json : Type :=
| JNull
| JBool (b : bool)
| JNum (x : float)
| JStr (s : string)
| JArr (elems : list json)
| JObj (fields : list (string * json)).

(** Property lookup on an object's own properties; a key is listed once. *)
Fixpoint assoc (key : string) (fields : list (string * json)) : option json :=
  match fields with
  | [] => None
  | (k, v) :: rest => if String.eqb k key then Some v else assoc key rest
  end.

(** ** Zod combinators used by [itemSchema]

    A schema is a function from a parsed value to the typed output, [None]
    standing for a [ZodError].  [z.object] reads the declared keys and drops
    the others; a missing key reads as [undefined], which no schema used
    here accepts. *)

Definition schema (A : Type) := json -> option A.

Definition z_string : schema string :=
  fun v => match v with JStr s => Some s | _ => None end.

(** [z.number()] accepts a value of type number that is not [NaN]. *)
Definition z_number : schema float :=
  fun v => match v with
           | JNum x => if PrimFloat.is_nan x then None else Some x
           | _ => None
           end.

Fixpoint parse_all {A} (s : schema A) (l : list json) : option (list A) :=
  match l with
  | [] => Some []
  | v :: rest =>
      match s v with
      | None => None
      | Some a =>
          match parse_all s rest with
          | None => None
          | Some l' => Some (a :: l')
          end
      end
  end.

Definition z_array {A} (s : schema A) : schema (list A) :=
  fun v => match v with JArr l => parse_all s l | _ => None end.

(** One key of a [z.object({...})]. *)
Definition field {A} (key : string) (s : schema A) (v : json) : option A :=
  match v with
  | JObj fields => match assoc key fields with Some x => s x | None => None end
  | _ => None
  end.

Definition obind {A B} (o : option A) (f : A -> option B) : option B :=
  match o with Some a => f a | None => None end.

Notation "x <-? o ;; k" := (obind o (fun x => k))
  (at level 61, o at next level, right associativity).

Definition addressSchema : schema Address := fun v =>
  a <-? field "street" z_string v ;;
  b <-? field "city" z_string v ;;
  c <-? field "state" z_string v ;;
  d <-? field "postal_code" z_string v ;;
  e <-? field "country" z_string v ;;
  Some (mkAddress a b c d e).

Definition pricesSchema : schema Prices := fun v =>
  f <-? field "full_price" z_number v ;;
  s <-? field "sale_price" z_number v ;;
  Some (mkPrices f s).

Definition reviewSchema : schema Review := fun v =>
  d <-? field "review_date" z_string v ;;
  r <-? field "rating" z_number v ;;
  c <-? field "comment" z_string v ;;
  Some (mkReview d r c).

Definition itemSchema : schema Item := fun v =>
  id <-? field "item_id" z_string v ;;
  name <-? field "item_name" z_string v ;;
  descr <-? field "item_description" z_string v ;;
  br <-? field "brand" z_string v ;;
  addr <-? field "manufacturer_address" addressSchema v ;;
  pr <-? field "prices" pricesSchema v ;;
  cats <-? field "categories" (z_array z_string) v ;;
  revs <-? field "user_reviews" (z_array reviewSchema) v ;;
  nt <-? field "notes" z_string v ;;
  Some (mkItem id name descr br addr pr cats revs nt).

(** The schema handed to [StructuredOutputParser.fromZodSchema]. *)
Definition parserSchema : schema (list Item) := z_array itemSchema.

(** [Array.prototype.join] on an array of strings. *)
Fixpoint join (sep : string) (l : list string) : string :=
  match l with
  | [] => ""
  | [x] => x
  | x :: rest => (x ++ sep ++ join sep rest)%string
  end.

(** ** The outside world

    The database behind [client], as far as the script touches it: whether
    the connection is open, whether [inventory_database.items] exists, its
    Atlas search indexes, its documents, and the number of
    [fromDocuments] requests made so far (the sequence number of the next
    embedding request). *)

Record SearchIndex := mkSearchIndex {
  index_name : string;
  index_type : string;
  path : string;
  numDimensions : Z;
  similarity : string
}.

(** What [MongoDBAtlasVectorSearch] writes for one document: the page
    content under [textKey], the vector under [embeddingKey], and the
    metadata spread next to them. *)
Record StoredDoc := mkStoredDoc {
  embedding_text : string;
  embedding : list float;
  metadata : Item
}.

Record World := mkWorld {
  connected : bool;
  items_collection_exists : bool;
  search_indexes : list SearchIndex;
  documents : list StoredDoc;
  requests : nat
}.

(** Errors: a rejected request, or the exception of the output parser. *)
Inductive Error : Type :=
| RequestError (msg : string)
| OutputParserException (text : string).

(** The requests sent to the outside: the MongoDB driver, the chat model
    and the embedding provider.  The two requests made by [fromDocuments]
    carry the sequence number of the [fromDocuments] call. *)
Inductive Op : Type :=
| client_connect
| admin_ping
| listCollections
| createCollection
| dropIndexes
| createSearchIndex
| deleteMany
| llm_invoke
| embedDocuments (n : nat)
| insertMany (n : nat)
| client_close.

(** What the script cannot control: which requests are rejected and with
    which error, what the model answers, how the runtime and the libraries
    turn text into a value and a number into text, and whether the runtime
    exposes [global.gc]. *)
Record Env := mkEnv {
  fails : Op -> option Error;
  llm_content : string;
  json_of_text : string -> option json;
  embed_vector : string -> list float;
  Number_toString : float -> string;
  has_gc : bool
}.

(** Console messages.  A message built from numbers keeps the numbers. *)
Inductive Message : Type :=
| Text (s : string)
| Generated (n : nat)
| ProcessingBatch (i batchSize len : Z)
| SavedRecord (id : string).

(** The observable events of a run.  [Summarize] marks a call of
    [createItemSummary]; the others are requests, console output, a
    garbage collection and a timer. *)
Inductive Event : Type :=
| Call (op : Op)
| Summarize (item : Item)
| Log (m : Message)
| LogError (what : string) (e : Error)
| GC
| Sleep (ms : Z).

(** ** The monad of asynchronous computations *)

Inductive outcome (A : Type) : Type :=
| Ok (a : A)
| Throw (e : Error)
| Diverge.
Arguments Ok {A} a.
Arguments Throw {A} e.
Arguments Diverge {A}.

Definition M (A : Type) : Type := World -> outcome A * World * list Event.

Definition ret {A} (a : A) : M A := fun w => (Ok a, w, []).

Definition bind {A B} (m : M A) (f : A -> M B) : M B := fun w =>
  match m w with
  | (Ok a, w1, t1) => let '(o, w2, t2) := f a w1 in (o, w2, t1 ++ t2)
  | (Throw e, w1, t1) => (Throw e, w1, t1)
  | (Diverge, w1, t1) => (Diverge, w1, t1)
  end.

Notation "x <- m ;; k" := (bind m (fun x => k))
  (at level 61, m at next level, right associativity).
Notation "m ;; k" := (bind m (fun _ => k))
  (at level 61, right associativity).

Definition throw {A} (e : Error) : M A := fun w => (Throw e, w, []).
Definition diverge {A} : M A := fun w => (Diverge, w, []).
Definition tell (t : list Event) : M unit := fun w => (Ok tt, w, t).
Definition gets {A} (f : World -> A) : M A := fun w => (Ok (f w), w, []).
Definition modify (f : World -> World) : M unit := fun w => (Ok tt, f w, []).

(** [try { m } catch (e) { h e }] *)
Definition try_catch {A} (m : M A) (h : Error -> M A) : M A := fun w =>
  match m w with
  | (Throw e, w1, t1) => let '(o, w2, t2) := h e w1 in (o, w2, t1 ++ t2)
  | r => r
  end.

(** [try { m } finally { fin }]: [fin] runs however [m] ends, and an error
    thrown by [fin] replaces the completion of [m]. *)
Definition try_finally {A} (m : M A) (fin : M unit) : M A := fun w =>
  match m w with
  | (Diverge, w1, t1) => (Diverge, w1, t1)
  | (o, w1, t1) =>
      match fin w1 with
      | (Ok _, w2, t2) => (o, w2, t1 ++ t2)
      | (Throw e, w2, t2) => (Throw e, w2, t1 ++ t2)
      | (Diverge, w2, t2) => (Diverge, w2, t1 ++ t2)
      end
  end.

(** [for (const x of l) { body x }] *)
Fixpoint forOf {A} (l : list A) (body : A -> M unit) : M unit :=
  match l with
  | [] => ret tt
  | x :: rest => body x ;; forOf rest body
  end.

Definition outcome_of {A} (r : outcome A * World * list Event) : outcome A := fst (fst r).
Definition world_of {A} (r : outcome A * World * list Event) : World := snd (fst r).
Definition trace_of {A} (r : outcome A * World * list Event) : list Event := snd r.

(** An awaited request: it is issued, and the environment decides whether
    it is rejected. *)
Definition request (env : Env) (op : Op) : M unit := fun w =>
  match fails env op with
  | None => (Ok tt, w, [Call op])
  | Some e => (Throw e, w, [Call op])
  end.

(** ** Summary builder *)

Section Summary.

Local Open Scope string_scope.

Variable env : Env.

(** The callback of [user_reviews.map]. *)
Definition reviewSentence (review : Review) : string :=
  "Rated " ++ Number_toString env (rating review) ++ " on " ++ review_date review
    ++ ": " ++ comment review.

Definition createItemSummary (item : Item) : M string :=
  tell [Summarize item] ;;
  let manufacturerDetails := "Made in " ++ country (manufacturer_address item) in
  let categories' := join ", " (categories item) in
  let userReviews := join " " (map reviewSentence (user_reviews item)) in
  let basicInfo :=
    item_name item ++ " " ++ item_description item ++ " from the brand " ++ brand item in
  let price :=
    "At full price it costs: " ++ Number_toString env (full_price (prices item))
      ++ " USD, On sale it costs: "
      ++ Number_toString env (sale_price (prices item)) ++ " USD" in
  let notes' := notes item in
  let summary :=
    basicInfo ++ ". Manufacturer: " ++ manufacturerDetails
      ++ ". Categories: " ++ categories' ++ ". Reviews: " ++ userReviews
      ++ ". Price: " ++ price ++ ". Notes: " ++ notes' in
  ret summary.

End Summary.

(** ** Array.prototype.slice, for integral arguments *)

Definition relativeIndex (len k : Z) : Z :=
  if k <? 0 then Z.max (len + k) 0 else Z.min k len.

Definition slice {A} (l : list A) (start final : Z) : list A :=
  let len := Z.of_nat (length l) in
  let k := relativeIndex len start in
  let final' := relativeIndex len final in
  firstn (Z.to_nat (Z.max (final' - k) 0)) (skipn (Z.to_nat k) l).

(** ** The steps of the script *)

(** A handle on a collection; the script only ever holds the one on
    [inventory_database.items], whose content is [documents]. *)
Record Collection := mkCollection {
  dbName : string;
  collectionName : string
}.

(** A LangChain document. *)
Record Document := mkDocument {
  pageContent : string;
  doc_metadata : Item
}.

Definition set_connected (b : bool) (w : World) : World :=
  mkWorld b (items_collection_exists w) (search_indexes w) (documents w) (requests w).

Definition set_items_collection_exists (b : bool) (w : World) : World :=
  mkWorld (connected w) b (search_indexes w) (documents w) (requests w).

Definition add_search_index (ix : SearchIndex) (w : World) : World :=
  mkWorld (connected w) (items_collection_exists w) (search_indexes w ++ [ix])
    (documents w) (requests w).

Definition set_documents (ds : list StoredDoc) (w : World) : World :=
  mkWorld (connected w) (items_collection_exists w) (search_indexes w) ds (requests w).

Definition next_request (w : World) : World :=
  mkWorld (connected w) (items_collection_exists w) (search_indexes w) (documents w)
    (S (requests w)).

Section Pipeline.

Variable env : Env.

Definition setupDatabaseAndCollection : M unit :=
  tell [Log (Text "Setting up database and collection...")] ;;
  request env listCollections ;;
  collections <- gets (fun w => if items_collection_exists w then ["items"] else []) ;;
  if (length collections =? 0)%nat then
    request env createCollection ;;
    modify (set_items_collection_exists true) ;;
    tell [Log (Text "Created 'items' collection in 'inventory_database' database")]
  else
    tell [Log (Text "'items' collection already exists in 'inventory_database' database")].

Definition createVectorSearchIndex : M unit :=
  try_catch
    (request env dropIndexes ;;
     let vectorSearchIdx := mkSearchIndex "vector_index" "vectorSearch" "embedding" 768 "cosine" in
     tell [Log (Text "Creating vector search index...")] ;;
     request env createSearchIndex ;;
     modify (add_search_index vectorSearchIdx) ;;
     tell [Log (Text "Successfully created vector search index")])
    (fun e => tell [LogError "Failed to create vector search index:" e]).

(** [parser.parse]: the text is turned into a value, the value is checked
    against the schema, and either failure is an [OutputParserException]. *)
Definition parser_parse (text : string) : M (list Item) :=
  match json_of_text env text with
  | None => throw (OutputParserException text)
  | Some v =>
      match parserSchema v with
      | None => throw (OutputParserException text)
      | Some items => ret items
      end
  end.

Definition generateSyntheticData : M (list Item) :=
  tell [Log (Text "Generating synthetic data...")] ;;
  request env llm_invoke ;;
  let response := llm_content env in
  parser_parse response.

Definition forceGC : M unit :=
  if has_gc env then tell [GC] else ret tt.

(** [MongoDBAtlasVectorSearch.fromDocuments]: one embedding request for
    the page contents, then one [insertMany] of the documents with their
    vectors.  Nothing is written unless both succeed. *)
Definition fromDocuments (docs : list Document) (collection : Collection) : M unit :=
  n <- gets requests ;;
  modify next_request ;;
  request env (embedDocuments n) ;;
  let stored :=
    map (fun d => mkStoredDoc (pageContent d) (embed_vector env (pageContent d))
                    (doc_metadata d)) docs in
  request env (insertMany n) ;;
  w <- gets documents ;;
  modify (set_documents (w ++ stored)).

(** The body of the inner loop of [processBatch]. *)
Definition processItem (collection : Collection) (item : Item) : M unit :=
  summary <- createItemSummary env item ;;
  let record := mkDocument summary item in
  fromDocuments [record] collection ;;
  tell [Log (SavedRecord (item_id item))].

(** The outer loop of [processBatch]; [fuel] bounds the number of
    iterations, and running out of it stands for a loop that goes on. *)
Fixpoint processBatch_loop (fuel : nat) (items : list Item) (collection : Collection)
    (batchSize i : Z) : M unit :=
  match fuel with
  | O => diverge
  | S fuel' =>
      if i <? Z.of_nat (length items) then
        let batch := slice items i (i + batchSize) in
        tell [Log (ProcessingBatch i batchSize (Z.of_nat (length items)))] ;;
        forOf batch (processItem collection) ;;
        forceGC ;;
        tell [Sleep 1000] ;;
        processBatch_loop fuel' items collection batchSize (i + batchSize)
      else ret tt
  end.

(** One more iteration than there are items is enough whenever the loop
    ends at all ([processBatch_exact] below). *)
Definition processBatch (items : list Item) (collection : Collection) (batchSize : Z)
    : M unit :=
  processBatch_loop (S (length items)) items collection batchSize 0.

(** The [try] block of [seedDatabase]. *)
Definition seedDatabase_try : M unit :=
  tell [Log (Text "🔌 Connecting to MongoDB...")] ;;
  request env client_connect ;;
  modify (set_connected true) ;;
  request env admin_ping ;;
  tell [Log (Text "✅ Successfully connected to MongoDB!")] ;;
  setupDatabaseAndCollection ;;
  createVectorSearchIndex ;;
  let db := "inventory_database" in
  let collection := mkCollection db "items" in
  request env deleteMany ;;
  modify (set_documents []) ;;
  tell [Log (Text "Cleared existing data from items collection")] ;;
  syntheticData <- generateSyntheticData ;;
  tell [Log (Generated (length syntheticData))] ;;
  processBatch syntheticData collection 3 ;;
  tell [Log (Text "Database seeding completed")].

Definition client_close' : M unit :=
  request env client_close ;;
  modify (set_connected false).

Definition seedDatabase : M unit :=
  try_finally
    (try_catch seedDatabase_try
       (fun error => tell [LogError "Error seeding database:" error]))
    client_close'.

End Pipeline.

(** ** The partition made by the loop of [processBatch]

    [batches_loop] keeps the loop header and the slice of [processBatch_loop]
    and drops the body: it returns the successive values of [batch].
    [runBatches] is the body of the loop run on a given list of batches.
    [processBatch_loop_batches] below shows that the loop is the second
    applied to the first. *)

Fixpoint batches_loop (fuel : nat) (items : list Item) (batchSize i : Z)
    : option (list (list Item)) :=
  match fuel with
  | O => None
  | S fuel' =>
      if i <? Z.of_nat (length items) then
        match batches_loop fuel' items batchSize (i + batchSize) with
        | Some bs => Some (slice items i (i + batchSize) :: bs)
        | None => None
        end
      else Some []
  end.

Definition batches (items : list Item) (batchSize : Z) : option (list (list Item)) :=
  batches_loop (S (length items)) items batchSize 0.

Definition batchBody (env : Env) (items : list Item) (collection : Collection)
    (batchSize i : Z) (batch : list Item) : M unit :=
  tell [Log (ProcessingBatch i batchSize (Z.of_nat (length items)))] ;;
  forOf batch (processItem env collection) ;;
  forceGC env ;;
  tell [Sleep 1000].

Fixpoint runBatches (env : Env) (items : list Item) (collection : Collection)
    (batchSize i : Z) (bs : list (list Item)) : M unit :=
  match bs with
  | [] => ret tt
  | batch :: rest =>
      batchBody env items collection batchSize i batch ;;
      runBatches env items collection batchSize (i + batchSize) rest
  end.

(** [Math.ceil(a / b)] for integers [a] and [b > 0]. *)
Definition ceilDiv (a b : Z) : Z := (a + b - 1) / b.

(** ** Reading a price off a candidate *)

(** The value of [prices.<key>] in a candidate, when it is a number. *)
Definition price_of (key : string) (v : json) : option float :=
  field "prices" (field key z_number) v.

(** ** Sample data *)

Definition sampleAddress : json :=
  JObj [("street", JStr "1 Via Roma"); ("city", JStr "Milan"); ("state", JStr "MI");
        ("postal_code", JStr "20100"); ("country", JStr "Italy")].

(** A well-shaped candidate with the given prices. *)
Definition sampleCandidate (full sale : json) : json :=
  JObj [("item_id", JStr "chair-1"); ("item_name", JStr "Chair");
        ("item_description", JStr "An oak chair"); ("brand", JStr "Acme");
        ("manufacturer_address", sampleAddress);
        ("prices", JObj [("full_price", full); ("sale_price", sale)]);
        ("categories", JArr [JStr "chairs"; JStr "oak"]);
        ("user_reviews",
          JArr [JObj [("review_date", JStr "2024-01-01"); ("rating", JNum 5%float);
                      ("comment", JStr "Sturdy")]]);
        ("notes", JStr "Ships flat")].

Definition sampleItem (full sale : float) : Item :=
  mkItem "chair-1" "Chair" "An oak chair" "Acme"
    (mkAddress "1 Via Roma" "Milan" "MI" "20100" "Italy")
    (mkPrices full sale) ["chairs"; "oak"]
    [mkReview "2024-01-01" 5%float "Sturdy"] "Ships flat".

(** An environment in which the model answers with the JSON value [v] and
    the requests rejected are those chosen by [f]. *)
Definition sampleEnv (f : Op -> option Error) (v : json) : Env :=
  mkEnv f "reply" (fun _ => Some v) (fun _ => [0%float]) (fun _ => "0") true.

Definition noFailure : Op -> option Error := fun _ => None.

Definition emptyWorld : World := mkWorld false false [] [] 0.

Definition itemsCollection : Collection := mkCollection "inventory_database" "items".

(** ** Reading a trace *)

(** [emits p m]: every event of every run of [m] satisfies [p]. *)
Definition emits {A} (p : Event -> bool) (m : M A) : Prop :=
  forall w, Forall (fun e => p e = true) (trace_of (m w)).

(** [terminates m]: no run of [m] goes on for ever. *)
Definition terminates {A} (m : M A) : Prop :=
  forall w, outcome_of (m w) <> Diverge.

(** [fails_to_return m]: no run of [m] ends normally. *)
Definition fails_to_return {A} (m : M A) : Prop :=
  forall w a, outcome_of (m w) <> Ok a.

Definition is_close (e : Event) : bool :=
  match e with Call client_close => true | _ => false end.

Definition is_clear (e : Event) : bool :=
  match e with Call deleteMany => true | _ => false end.

Definition is_generate (e : Event) : bool :=
  match e with Call llm_invoke => true | _ => false end.

Definition is_insert (e : Event) : bool :=
  match e with Call (insertMany _) => true | _ => false end.

(** The events of the inner loop of [processBatch]. *)
Definition is_item_event (e : Event) : bool :=
  match e with
  | Summarize _ | Call (embedDocuments _) | Call (insertMany _) | Log (SavedRecord _) => true
  | _ => false
  end.

(** The items summarized, and the sequence numbers of the embedding
    requests and of the writes, in the order of the trace. *)
Definition summarized (t : list Event) : list Item :=
  flat_map (fun e => match e with Summarize it => [it] | _ => [] end) t.

Definition embedded (t : list Event) : list nat :=
  flat_map (fun e => match e with Call (embedDocuments n) => [n] | _ => [] end) t.

Definition inserted (t : list Event) : list nat :=
  flat_map (fun e => match e with Call (insertMany n) => [n] | _ => [] end) t.

(** ** The two halves of the [try] block of [seedDatabase]

    [seed_setup] is the block up to and including the provisioning of the
    index, [seed_ingest] the rest; [seedDatabase_try_split] below shows that
    the block is the first followed by the second. *)

Definition seed_setup (env : Env) : M unit :=
  tell [Log (Text "🔌 Connecting to MongoDB...")] ;;
  request env client_connect ;;
  modify (set_connected true) ;;
  request env admin_ping ;;
  tell [Log (Text "✅ Successfully connected to MongoDB!")] ;;
  setupDatabaseAndCollection env ;;
  createVectorSearchIndex env.

Definition seed_ingest (env : Env) : M unit :=
  request env deleteMany ;;
  modify (set_documents []) ;;
  tell [Log (Text "Cleared existing data from items collection")] ;;
  syntheticData <- generateSyntheticData env ;;
  tell [Log (Generated (length syntheticData))] ;;
  processBatch env syntheticData (mkCollection "inventory_database" "items") 3 ;;
  tell [Log (Text "Database seeding completed")].

(** What the provisioning half emits: no write, no clearing, no generation
    request, no closing. *)
Definition is_setup_event (e : Event) : bool :=
  match e with
  | Call client_connect | Call admin_ping | Call listCollections
  | Call createCollection | Call dropIndexes | Call createSearchIndex => true
  | Log (Text _) | LogError _ _ => true
  | _ => false
  end.

(** What the ingesting half emits. *)
Definition is_ingest_event (e : Event) : bool :=
  match e with
  | Call deleteMany | Call llm_invoke | Call (embedDocuments _) | Call (insertMany _) => true
  | Log _ | Summarize _ | GC | Sleep _ => true
  | _ => false
  end.

(** The position of the first event of a trace that satisfies [p]. *)
Fixpoint first_index (p : Event -> bool) (t : list Event) : option nat :=
  match t with
  | [] => None
  | e :: rest => if p e then Some 0%nat else option_map S (first_index p rest)
  end.

(** An environment that rejects the requests listed, with the error given. *)
Definition rejecting (ops : list Op) (e : Error) : Op -> option Error := fun op =>
  if existsb (fun o =>
       match o, op with
       | client_connect, client_connect | admin_ping, admin_ping
       | listCollections, listCollections | createCollection, createCollection
       | dropIndexes, dropIndexes | createSearchIndex, createSearchIndex
       | deleteMany, deleteMany | llm_invoke, llm_invoke
       | client_close, client_close => true
       | embedDocuments n, embedDocuments m | insertMany n, insertMany m => Nat.eqb n m
       | _, _ => false
       end) ops
  then Some e else None.

(** ** Outcomes of the requests for one item

    [item_ok env n]: the [n]-th [fromDocuments] call gets its embedding and
    its write.  [item_fails env n e]: its embedding request, or else its
    write, is rejected with [e]. *)

Definition item_ok (env : Env) (n : nat) : Prop :=
  fails env (embedDocuments n) = None /\ fails env (insertMany n) = None.

Definition item_fails (env : Env) (n : nat) (e : Error) : Prop :=
  fails env (embedDocuments n) = Some e \/
  (fails env (embedDocuments n) = None /\ fails env (insertMany n) = Some e).

(** The run gets as far as [processBatch], with [items] for the records. *)
Definition reaches_ingestion (env : Env) (w : World) (items : list Item) : Prop :=
  fails env client_connect = None /\
  fails env admin_ping = None /\
  fails env listCollections = None /\
  fails env createCollection = None /\
  fails env deleteMany = None /\
  fails env llm_invoke = None /\
  exists v, json_of_text env (llm_content env) = Some v /\ parserSchema v = Some items.

(** ** The trace of the batch loop *)

(** What follows the items of a batch that was processed to its end. *)
Definition pauseEvents (env : Env) : list Event :=
  (if has_gc env then [GC] else []) ++ [Sleep 1000].

(** The trace of batches processed to their end, given the events of their
    items: announcement, items, reclamation and pause, batch after batch. *)
Fixpoint completedBatches (env : Env) (B L i : Z) (segs : list (list Event)) : list Event :=
  match segs with
  | [] => []
  | seg :: rest =>
      Log (ProcessingBatch i B L) :: seg ++ pauseEvents env
        ++ completedBatches env B L (i + B) rest
  end.

Definition is_sleep (e : Event) : bool :=
  match e with Sleep _ => true | _ => false end.

Definition is_header (e : Event) : bool :=
  match e with Log (ProcessingBatch _ _ _) => true | _ => false end.

(** Ten records, as the prompt asks for, and the reply that carries them. *)
Definition tenItems : list Item := repeat (sampleItem 10%float 5%float) 10.

Definition tenCandidates : json :=
  JArr (repeat (sampleCandidate (JNum 10%float) (JNum 5%float)) 10).

(** ** The rest of the script

    What the script does besides the run of the pipeline: the check of the
    environment variables when the module is loaded, and the handler put on
    the promise of [seedDatabase]. *)

(** [process.env]: a variable is unset or holds a string. *)
Definition ProcessEnv := string -> option string.

(** [!process.env[varName]]: unset, or set to the empty string. *)
Definition isMissing (penv : ProcessEnv) (varName : string) : bool :=
  match penv varName with
  | None => true
  | Some EmptyString => true
  | Some _ => false
  end.

(** How [validateEnvironmentVariables] ends: with [process.exit(code)] after
    the lines written with [console.error], or by returning after the lines
    written with [console.log]. *)
Inductive Validation : Type :=
| Exited (code : Z) (stderr : list string)
| Validated (stdout : list string).

Definition newline : string := String "010"%char EmptyString.

Definition validateEnvironmentVariables (penv : ProcessEnv) : Validation :=
  let requiredVars := ["MONGODB_ATLAS_URI"; "GOOGLE_API_KEY"] in
  let missingVars := filter (fun varName => isMissing penv varName) requiredVars in
  if (0 <? length missingVars)%nat then
    Exited 1
      (["❌ Missing required environment variables:"]
         ++ map (fun varName => ("   - " ++ varName)%string) missingVars
         ++ [(newline ++ "📝 Please create a .env file in the server directory with the following variables:")%string;
             "   MONGODB_ATLAS_URI=your_mongodb_connection_string";
             "   GOOGLE_API_KEY=your_google_api_key";
             (newline ++ "🔗 Get your Google API key from: https://makersuite.google.com/app/apikey")%string])
  else
    Validated ["✅ Environment variables validated successfully"].

(** [seedDatabase().catch(console.error)], the last line of the script;
    [console.error] gets the error alone, without a label. *)
Definition main (env : Env) : M unit :=
  try_catch (seedDatabase env) (fun e => tell [LogError "" e]).

(** ** Records as objects, and what is stored for a record *)

(** The object that a value of type [Item] is. *)
Definition json_of_address (a : Address) : json :=
  JObj [("street", JStr (street a)); ("city", JStr (city a)); ("state", JStr (state a));
        ("postal_code", JStr (postal_code a)); ("country", JStr (country a))].

Definition json_of_prices (p : Prices) : json :=
  JObj [("full_price", JNum (full_price p)); ("sale_price", JNum (sale_price p))].

Definition json_of_review (r : Review) : json :=
  JObj [("review_date", JStr (review_date r)); ("rating", JNum (rating r));
        ("comment", JStr (comment r))].

Definition json_of_item (it : Item) : json :=
  JObj [("item_id", JStr (item_id it)); ("item_name", JStr (item_name it));
        ("item_description", JStr (item_description it)); ("brand", JStr (brand it));
        ("manufacturer_address", json_of_address (manufacturer_address it));
        ("prices", json_of_prices (prices it));
        ("categories", JArr (map JStr (categories it)));
        ("user_reviews", JArr (map json_of_review (user_reviews it)));
        ("notes", JStr (notes it))].

(** No number of the record is [NaN]. *)
Definition numbers_defined (it : Item) : Prop :=
  PrimFloat.is_nan (full_price (prices it)) = false /\
  PrimFloat.is_nan (sale_price (prices it)) = false /\
  Forall (fun r => PrimFloat.is_nan (rating r) = false) (user_reviews it).

(** The keys that [itemSchema] declares. *)
Definition itemKeys : list string :=
  ["item_id"; "item_name"; "item_description"; "brand"; "manufacturer_address";
   "prices"; "categories"; "user_reviews"; "notes"].

(** The string with which [createItemSummary] resolves. *)
Definition summaryText (env : Env) (item : Item) : string :=
  match outcome_of (createItemSummary env item (mkWorld false false [] [] 0)) with
  | Ok summary => summary
  | _ => EmptyString
  end.

(** The document that [processBatch] writes for a record. *)
Definition storedDocOf (env : Env) (item : Item) : StoredDoc :=
  mkStoredDoc (summaryText env item) (embed_vector env (summaryText env item)) item.

(** A document whose text is the summary of its own record and whose vector
    is the embedding of its own text. *)
Definition doc_consistent (env : Env) (d : StoredDoc) : Prop :=
  embedding_text d = summaryText env (metadata d) /\
  embedding d = embed_vector env (embedding_text d).

(** [preserves I m]: a run of [m] from a state in [I] ends in a state in [I]. *)
Definition preserves {A} (I : World -> Prop) (m : M A) : Prop :=
  forall w, I w -> I (world_of (m w)).

(** The time spent in the timers of a trace, in milliseconds. *)
Definition sleptMs (t : list Event) : Z :=
  fold_right (fun e acc => match e with Sleep ms => ms + acc | _ => acc end) 0 t.

(** The provisioning requests succeed. *)
Definition setup_succeeds (env : Env) : Prop :=
  fails env client_connect = None /\ fails env admin_ping = None /\
  fails env listCollections = None /\ fails env createCollection = None.

(** The generation step fails with [e]: the request is rejected, or the
    reply is not JSON, or it does not pass the schema. *)
Definition generation_fails (env : Env) (e : Error) : Prop :=
  fails env llm_invoke = Some e \/
  (fails env llm_invoke = None /\
   e = OutputParserException (llm_content env) /\
   (json_of_text env (llm_content env) = None \/
    exists v, json_of_text env (llm_content env) = Some v /\ parserSchema v = None)).

(** ** A record to summarize *)

(** [Number::toString] on the numbers of [summaryItem]. *)
Definition sampleNumberToString (x : float) : string :=
  if PrimFloat.eqb x 5%float then "5"
  else if PrimFloat.eqb x 4%float then "4"
  else if PrimFloat.eqb x 250%float then "250"
  else if PrimFloat.eqb x 199.5%float then "199.5"
  else "NaN".

Definition summaryEnv : Env :=
  mkEnv (fun _ => None) "reply" (fun _ => None) (fun _ => []) sampleNumberToString false.

Definition summaryItem : Item :=
  mkItem "chair-7" "Windsor Chair" "A spindle-back oak chair" "Acme"
    (mkAddress "1 Via Roma" "Milan" "MI" "20100" "Italy")
    (mkPrices 250%float 199.5%float) ["chairs"; "oak"; "dining"]
    [mkReview "2024-01-01" 5%float "Sturdy"; mkReview "2024-02-10" 4%float "Comfortable"]
    "Ships flat".

(** The same record without categories and reviews. *)
Definition bareItem : Item :=
  mkItem "chair-7" "Windsor Chair" "A spindle-back oak chair" "Acme"
    (mkAddress "1 Via Roma" "Milan" "MI" "20100" "Italy")
    (mkPrices 250%float 199.5%float) [] [] "Ships flat".

(** ** Writes and embeddings in a trace *)

(** Every write in the trace comes after the embedding request of the same
    number, and that request was not rejected. *)
Definition write_after_embedding (env : Env) (t : list Event) : Prop :=
  forall t1 t2 j,
    t = t1 ++ Call (insertMany j) :: t2 ->
    In (Call (embedDocuments j)) t1 /\ fails env (embedDocuments j) = None.

Definition writes_ordered {A} (env : Env) (m : M A) : Prop :=
  forall w, write_after_embedding env (trace_of (m w)).

(** * Properties *)

(** ** The monad *)

Lemma bind_assoc {A B C} (m : M A) (f : A -> M B) (g : B -> M C) w :
  bind (bind m f) g w = bind m (fun a => bind (f a) g) w.
Proof.
  unfold bind. destruct (m w) as [[[a|e|] w1] t1]; auto.
  destruct (f a w1) as [[[b|e|] w2] t2]; auto.
  destruct (g b w2) as [[o w3] t3]. now rewrite app_assoc.
Qed.

Lemma bind_ext {A B} (m : M A) (f g : A -> M B) w :
  (forall a w', f a w' = g a w') -> bind m f w = bind m g w.
Proof.
  intros H. unfold bind. destruct (m w) as [[[a|e|] w1] t1]; auto.
  now rewrite H.
Qed.

Lemma forOf_app {A} (l1 l2 : list A) (body : A -> M unit) w :
  forOf (l1 ++ l2) body w = (forOf l1 body ;; forOf l2 body) w.
Proof.
  revert w. induction l1 as [|x l1 IH]; intros w; simpl.
  - unfold bind, ret. destruct (forOf l2 body w) as [[o w'] t]. reflexivity.
  - rewrite bind_assoc. apply bind_ext. intros _ w'. apply IH.
Qed.

Lemma bind_Ok {A B} (m : M A) (f : A -> M B) w a w1 t1 :
  m w = (Ok a, w1, t1) ->
  bind m f w = (let '(o, w2, t2) := f a w1 in (o, w2, t1 ++ t2)).
Proof. intros E. unfold bind. now rewrite E. Qed.

Lemma bind_Throw {A B} (m : M A) (f : A -> M B) w e w1 t1 :
  m w = (Throw e, w1, t1) -> bind m f w = (Throw e, w1, t1).
Proof. intros E. unfold bind. now rewrite E. Qed.

(** More fuel does not change a run that ended. *)
Lemma bind_more {A B} (m : M A) (f g : A -> M B) w :
  outcome_of (bind m f w) <> Diverge ->
  (forall a w', outcome_of (f a w') <> Diverge -> g a w' = f a w') ->
  bind m g w = bind m f w.
Proof.
  unfold bind, outcome_of. intros Hnd H.
  destruct (m w) as [[[a|e|] w1] t1]; auto.
  rewrite H; auto. unfold outcome_of.
  destruct (f a w1) as [[o w2] t2]. exact Hnd.
Qed.

Lemma request_Ok env op w :
  fails env op = None -> request env op w = (Ok tt, w, [Call op]).
Proof. intros E. unfold request. now rewrite E. Qed.

Lemma request_Throw env op w e :
  fails env op = Some e -> request env op w = (Throw e, w, [Call op]).
Proof. intros E. unfold request. now rewrite E. Qed.

(** ** Slices and batches *)

Lemma ceilDiv_spec a b :
  0 < b -> b * (ceilDiv a b - 1) < a <= b * ceilDiv a b.
Proof.
  intros Hb. unfold ceilDiv.
  pose proof (Z.div_mod (a + b - 1) b ltac:(lia)) as E.
  pose proof (Z.mod_pos_bound (a + b - 1) b Hb) as R.
  revert E R. generalize ((a + b - 1) / b) ((a + b - 1) mod b).
  intros q r E R. nia.
Qed.

Lemma slice_chunk {A} (l : list A) (i B : Z) :
  0 <= i < Z.of_nat (length l) -> 1 <= B ->
  slice l i (i + B) = firstn (Z.to_nat B) (skipn (Z.to_nat i) l).
Proof.
  intros Hi HB. unfold slice, relativeIndex.
  destruct (Z.ltb_spec i 0); [lia|].
  destruct (Z.ltb_spec (i + B) 0); [lia|].
  rewrite (Z.min_l i) by lia.
  destruct (Z.le_ge_cases (i + B) (Z.of_nat (length l))) as [Hle|Hge].
  - rewrite Z.min_l by lia. f_equal. lia.
  - rewrite Z.min_r by lia.
    rewrite !firstn_all2; auto; rewrite length_skipn; lia.
Qed.

Lemma batches_loop_spec (items : list Item) (B : Z) :
  1 <= B ->
  forall fuel i,
    0 <= i < Z.of_nat (length items) + B ->
    Z.max 0 (Z.of_nat (length items) - i) < Z.of_nat fuel ->
    exists bs,
      batches_loop fuel items B i = Some bs /\
      concat bs = skipn (Z.to_nat i) items /\
      Z.of_nat (length bs) = ceilDiv (Z.of_nat (length items) - i) B /\
      Forall (fun b => 1 <= Z.of_nat (length b) <= B) bs /\
      (forall j b, nth_error bs j = Some b -> (S j < length bs)%nat ->
                   Z.of_nat (length b) = B).
Proof.
  intros HB. induction fuel as [|fuel IH]; intros i Hi Hfuel.
  - lia.
  - simpl. destruct (Z.ltb_spec i (Z.of_nat (length items))) as [Hlt|Hge].
    + destruct (IH (i + B)) as (bs & E & Hcat & Hlen & Hall & Hfull); [lia|lia|].
      rewrite E. eexists. split; [reflexivity|].
      rewrite slice_chunk by lia.
      assert (Hsk : skipn (Z.to_nat (i + B)) items
                    = skipn (Z.to_nat B) (skipn (Z.to_nat i) items)).
      { rewrite skipn_skipn. f_equal. lia. }
      assert (Hb : Z.of_nat (length (firstn (Z.to_nat B) (skipn (Z.to_nat i) items)))
                   = Z.min B (Z.of_nat (length items) - i)).
      { rewrite length_firstn, length_skipn. lia. }
      split; [|split; [|split; [|]]].
      * simpl. rewrite Hcat, Hsk. apply firstn_skipn.
      * simpl length. rewrite Nat2Z.inj_succ, Hlen. unfold ceilDiv.
        replace (Z.of_nat (length items) - i + B - 1)
          with (Z.of_nat (length items) - (i + B) + B - 1 + 1 * B) by lia.
        rewrite Z.div_add by lia. lia.
      * constructor; auto. rewrite Hb. lia.
      * intros [|j] b Hnth Hj; simpl in Hnth, Hj.
        -- injection Hnth as <-. rewrite Hb.
           assert (0 < Z.of_nat (length bs)) by lia.
           pose proof (ceilDiv_spec (Z.of_nat (length items) - (i + B)) B ltac:(lia)).
           nia.
        -- apply (Hfull j); auto. lia.
    + exists []. split; [reflexivity|]. split; [|split; [|split]].
      * simpl. symmetry. apply skipn_all2. lia.
      * simpl. unfold ceilDiv. symmetry. apply Z.div_small. lia.
      * constructor.
      * intros j b Hnth. destruct j; discriminate.
Qed.

(** The loop of [processBatch] runs its body on the batches computed by
    [batches_loop], in order. *)
Lemma processBatch_loop_batches env items coll B :
  forall fuel i bs w,
    batches_loop fuel items B i = Some bs ->
    processBatch_loop env fuel items coll B i w = runBatches env items coll B i bs w.
Proof.
  induction fuel as [|fuel IH]; intros i bs w E; simpl in E; [discriminate|].
  simpl. destruct (i <? Z.of_nat (length items)).
  - destruct (batches_loop fuel items B (i + B)) as [bs'|] eqn:E'; [|discriminate].
    injection E as <-. simpl. unfold batchBody.
    rewrite bind_assoc. apply bind_ext. intros _ w1.
    rewrite bind_assoc. apply bind_ext. intros _ w2.
    rewrite bind_assoc. apply bind_ext. intros _ w3.
    apply bind_ext. intros _ w4. now apply IH.
  - now injection E as <-.
Qed.

(** C1. For a batch size [B >= 1] the loop of [processBatch] ends and runs
    its body on [ceil(L/B)] batches, where [L] is the number of items: every
    batch but the last has [B] items, the last has between 1 and [B], and
    the batches put end to end are the items. *)
Theorem C1_partition (items : list Item) (B : Z) :
  1 <= B ->
  exists bs,
    batches items B = Some bs /\
    (forall env coll w,
        processBatch env items coll B w = runBatches env items coll B 0 bs w) /\
    Z.of_nat (length bs) = ceilDiv (Z.of_nat (length items)) B /\
    B * (Z.of_nat (length bs) - 1) < Z.of_nat (length items) <= B * Z.of_nat (length bs) /\
    (forall j b, nth_error bs j = Some b -> (S j < length bs)%nat ->
                 Z.of_nat (length b) = B) /\
    (forall b, nth_error bs (length bs - 1) = Some b ->
               1 <= Z.of_nat (length b) <= B) /\
    concat bs = items.
Proof.
  intros HB.
  destruct (batches_loop_spec items B HB (S (length items)) 0)
    as (bs & E & Hcat & Hlen & Hall & Hfull); [lia|lia|].
  rewrite Z.sub_0_r in Hlen.
  exists bs. split; [exact E|]. split; [|split; [|split; [|split; [|split]]]].
  - intros env coll w. now apply processBatch_loop_batches.
  - exact Hlen.
  - rewrite Hlen. apply ceilDiv_spec. lia.
  - exact Hfull.
  - intros b Hb. rewrite Forall_forall in Hall. apply Hall.
    eapply nth_error_In; eauto.
  - exact Hcat.
Qed.

(** Seven records in batches of three: sizes 3, 3 and 1. *)
Lemma C1_partition_witness :
  1 <= 3 /\
  exists bs,
    batches (repeat (mkItem "" "" "" "" (mkAddress "" "" "" "" "")
                       (mkPrices 0%float 0%float) [] [] "") 7) 3 = Some bs /\
    map (@length Item) bs = [3; 3; 1]%nat.
Proof.
  split; [lia|].
  destruct (C1_partition
              (repeat (mkItem "" "" "" "" (mkAddress "" "" "" "" "")
                         (mkPrices 0%float 0%float) [] [] "") 7) 3 ltac:(lia))
    as (bs & E & _).
  exists bs. split; [exact E|].
  vm_compute in E. injection E as <-. reflexivity.
Defined.

(** ** The summary builder *)

Lemma append_assoc (a b c : string) : ((a ++ b) ++ c = a ++ (b ++ c))%string.
Proof. induction a as [|ch a IH]; simpl; [reflexivity|now rewrite IH]. Qed.

Lemma join_concat sep l : join sep l = String.concat sep l.
Proof.
  induction l as [|x [|y l] IH]; [reflexivity|reflexivity|].
  change (join sep (x :: y :: l)) with (x ++ sep ++ join sep (y :: l))%string.
  now rewrite IH.
Qed.

(** C3. [createItemSummary] resolves with one fixed concatenation and
    changes nothing: name, description and brand; the manufacturer's country;
    the categories joined by a comma and a space; the review sentences
    "Rated {rating} on {date}: {comment}" joined by a space; the price
    sentence in USD; the notes.  The joins are those of the standard library
    ([String.concat]).  The string depends on the record and on the printing
    of numbers alone: two calls give the same string, in whatever state and
    whatever else the environment holds. *)
Theorem C3_summary_fixed (env : Env) (item : Item) (w : World) :
  createItemSummary env item w =
    (Ok (String.concat ""
           [item_name item; " "; item_description item; " from the brand "; brand item;
            ". Manufacturer: Made in "; country (manufacturer_address item);
            ". Categories: "; String.concat ", " (categories item);
            ". Reviews: ";
            String.concat " "
              (map (fun r =>
                      String.concat ""
                        ["Rated "; Number_toString env (rating r); " on ";
                         review_date r; ": "; comment r])
                 (user_reviews item));
            ". Price: At full price it costs: ";
            Number_toString env (full_price (prices item));
            " USD, On sale it costs: ";
            Number_toString env (sale_price (prices item));
            " USD. Notes: "; notes item]),
     w, [Summarize item])
  /\ (forall env' w',
        (forall x, Number_toString env' x = Number_toString env x) ->
        outcome_of (createItemSummary env' item w')
        = outcome_of (createItemSummary env item w)).
Proof.
  split.
  - unfold createItemSummary, bind, tell, ret. cbn [app].
    do 2 f_equal. f_equal.
    rewrite !join_concat, !append_assoc.
    cbn [String.concat].
    rewrite (map_ext (reviewSentence env)
               (fun r => String.concat ""
                           ["Rated "; Number_toString env (rating r); " on ";
                            review_date r; ": "; comment r]))
      by reflexivity.
    reflexivity.
  - intros env' w' Hnum.
    unfold createItemSummary, bind, tell, ret, outcome_of. cbn [app fst].
    rewrite (map_ext (reviewSentence env') (reviewSentence env)), !Hnum; [reflexivity|].
    intros r. unfold reviewSentence. now rewrite Hnum.
Qed.

(** A record with three categories and two reviews, and the same record
    with none. *)
Lemma C3_summary_fixed_witness :
  outcome_of (createItemSummary summaryEnv summaryItem emptyWorld)
  = Ok "Windsor Chair A spindle-back oak chair from the brand Acme. Manufacturer: Made in Italy. Categories: chairs, oak, dining. Reviews: Rated 5 on 2024-01-01: Sturdy Rated 4 on 2024-02-10: Comfortable. Price: At full price it costs: 250 USD, On sale it costs: 199.5 USD. Notes: Ships flat"
  /\ outcome_of (createItemSummary summaryEnv bareItem emptyWorld)
  = Ok "Windsor Chair A spindle-back oak chair from the brand Acme. Manufacturer: Made in Italy. Categories: . Reviews: . Price: At full price it costs: 250 USD, On sale it costs: 199.5 USD. Notes: Ships flat"
  /\ outcome_of (createItemSummary (sampleEnv noFailure JNull) summaryItem
                   (mkWorld true true [] [] 3))
  = outcome_of (createItemSummary
                  (mkEnv (fun _ => None) "" (fun _ => None) (fun _ => []) (fun _ => "0") false)
                  summaryItem emptyWorld).
Proof.
  split; [|split].
  - rewrite (proj1 (C3_summary_fixed summaryEnv summaryItem emptyWorld)). reflexivity.
  - rewrite (proj1 (C3_summary_fixed summaryEnv bareItem emptyWorld)). reflexivity.
  - apply (proj2 (C3_summary_fixed
                    (mkEnv (fun _ => None) "" (fun _ => None) (fun _ => []) (fun _ => "0")
                       false)
                    summaryItem emptyWorld)).
    reflexivity.
Defined.

(** ** Rules for [emits], [terminates] and [fails_to_return] *)

Lemma emits_ret {A} p (a : A) : emits p (ret a).
Proof. intros w. constructor. Qed.

Lemma emits_throw {A} p e : emits p (@throw A e).
Proof. intros w. constructor. Qed.

Lemma emits_diverge {A} p : emits p (@diverge A).
Proof. intros w. constructor. Qed.

Lemma emits_gets {A} p (f : World -> A) : emits p (gets f).
Proof. intros w. constructor. Qed.

Lemma emits_modify p f : emits p (modify f).
Proof. intros w. constructor. Qed.

Lemma emits_tell p t : forallb p t = true -> emits p (tell t).
Proof.
  intros H w. unfold tell, trace_of. simpl.
  rewrite forallb_forall in H. now apply Forall_forall.
Qed.

Lemma emits_request p env op : p (Call op) = true -> emits p (request env op).
Proof.
  intros H w. unfold request, trace_of.
  destruct (fails env op); simpl; repeat constructor; exact H.
Qed.

Lemma emits_bind {A B} p (m : M A) (f : A -> M B) :
  emits p m -> (forall a, emits p (f a)) -> emits p (bind m f).
Proof.
  intros Hm Hf w. specialize (Hm w). unfold bind, trace_of in *.
  destruct (m w) as [[[a|e|] w1] t1]; simpl in *; auto.
  specialize (Hf a w1). unfold trace_of in Hf.
  destruct (f a w1) as [[o w2] t2]. simpl in *. apply Forall_app. now split.
Qed.

Lemma emits_bind_stop {A B} p (m : M A) (f : A -> M B) :
  emits p m -> fails_to_return m -> emits p (bind m f).
Proof.
  intros Hm Hn w. specialize (Hm w). specialize (Hn w).
  unfold bind, trace_of, outcome_of in *.
  destruct (m w) as [[[a|e|] w1] t1]; simpl in *; auto.
  now destruct (Hn a).
Qed.

Lemma emits_try_catch {A} p (m : M A) h :
  emits p m -> (forall e, emits p (h e)) -> emits p (try_catch m h).
Proof.
  intros Hm Hh w. specialize (Hm w). unfold try_catch, trace_of in *.
  destruct (m w) as [[[a|e|] w1] t1]; simpl in *; auto.
  specialize (Hh e w1). unfold trace_of in Hh.
  destruct (h e w1) as [[o w2] t2]. simpl in *. apply Forall_app. now split.
Qed.

Lemma emits_try_finally {A} p (m : M A) fin :
  emits p m -> emits p fin -> emits p (try_finally m fin).
Proof.
  intros Hm Hf w. specialize (Hm w). unfold try_finally, trace_of in *.
  destruct (m w) as [[[a|e|] w1] t1]; simpl in *; auto;
    specialize (Hf w1); unfold trace_of in Hf;
    destruct (fin w1) as [[[[]|e'|] w2] t2]; simpl in *; apply Forall_app; now split.
Qed.

Lemma emits_weaken {A} (p q : Event -> bool) (m : M A) :
  (forall e, p e = true -> q e = true) -> emits p m -> emits q m.
Proof.
  intros H Hm w. specialize (Hm w). rewrite Forall_forall in *. auto.
Qed.

Lemma emits_forOf {A} p (l : list A) body :
  (forall x, emits p (body x)) -> emits p (forOf l body).
Proof.
  intros H. induction l as [|x l IH]; simpl.
  - apply emits_ret.
  - apply emits_bind; auto.
Qed.

Lemma terminates_ret {A} (a : A) : terminates (ret a).
Proof. intros w. discriminate. Qed.

Lemma terminates_throw {A} e : terminates (@throw A e).
Proof. intros w. discriminate. Qed.

Lemma terminates_tell t : terminates (tell t).
Proof. intros w. discriminate. Qed.

Lemma terminates_gets {A} (f : World -> A) : terminates (gets f).
Proof. intros w. discriminate. Qed.

Lemma terminates_modify f : terminates (modify f).
Proof. intros w. discriminate. Qed.

Lemma terminates_request env op : terminates (request env op).
Proof. intros w. unfold request, outcome_of. destruct (fails env op); discriminate. Qed.

Lemma terminates_bind {A B} (m : M A) (f : A -> M B) :
  terminates m -> (forall a, terminates (f a)) -> terminates (bind m f).
Proof.
  intros Hm Hf w. specialize (Hm w). unfold bind, outcome_of in *.
  destruct (m w) as [[[a|e|] w1] t1]; simpl in *; try discriminate; auto.
  specialize (Hf a w1). unfold outcome_of in Hf.
  destruct (f a w1) as [[o w2] t2]. exact Hf.
Qed.

Lemma terminates_try_catch {A} (m : M A) h :
  terminates m -> (forall e, terminates (h e)) -> terminates (try_catch m h).
Proof.
  intros Hm Hh w. specialize (Hm w). unfold try_catch, outcome_of in *.
  destruct (m w) as [[[a|e|] w1] t1]; simpl in *; try discriminate; auto.
  specialize (Hh e w1). unfold outcome_of in Hh.
  destruct (h e w1) as [[o w2] t2]. exact Hh.
Qed.

Lemma terminates_forOf {A} (l : list A) body :
  (forall x, terminates (body x)) -> terminates (forOf l body).
Proof.
  intros H. induction l as [|x l IH]; simpl.
  - apply terminates_ret.
  - apply terminates_bind; auto.
Qed.

(** One step of a derivation of [emits] or [terminates]; [leaf] settles
    what is asked of an event. *)
Ltac emits_step_with leaf :=
  first [ apply emits_bind; [|intros]
        | apply emits_try_catch; [|intros]
        | apply emits_tell; leaf
        | apply emits_request; leaf
        | apply emits_ret | apply emits_throw | apply emits_modify | apply emits_gets
        | match goal with
          | |- emits _ (if ?c then _ else _) => destruct c
          | |- emits _ (match ?c with _ => _ end) => destruct c
          end ].

Ltac emits_step := emits_step_with reflexivity.

Ltac terminates_step :=
  first [ apply terminates_bind; [|intros]
        | apply terminates_try_catch; [|intros]
        | apply terminates_tell | apply terminates_request
        | apply terminates_ret | apply terminates_throw
        | apply terminates_modify | apply terminates_gets
        | match goal with
          | |- terminates (if ?c then _ else _) => destruct c
          | |- terminates (match ?c with _ => _ end) => destruct c
          end ].

(** ** Lists of events *)

Lemma filter_none (p q : Event -> bool) t :
  Forall (fun e => p e = true) t -> (forall e, p e = true -> q e = false) ->
  filter q t = [].
Proof.
  intros Ht H. induction Ht as [|e t He Ht IH]; simpl; [reflexivity|].
  now rewrite (H e He).
Qed.

Lemma filter_all (p : Event -> bool) t :
  Forall (fun e => p e = true) t -> filter p t = t.
Proof.
  intros H. induction H as [|e t He H IH]; simpl; [reflexivity|]. now rewrite He, IH.
Qed.

Lemma inserted_none t :
  Forall (fun e => negb (is_insert e) = true) t -> inserted t = [].
Proof.
  intros H. induction H as [|e t He H IH]; [reflexivity|].
  unfold inserted in *. simpl. rewrite IH.
  destruct e as [[]| | | | |]; simpl in *; auto; discriminate.
Qed.

Lemma first_index_app (p : Event -> bool) t1 t2 :
  Forall (fun e => p e = false) t1 ->
  first_index p (t1 ++ t2) = option_map (fun n => (length t1 + n)%nat) (first_index p t2).
Proof.
  intros H. induction H as [|e t1 He H IH]; simpl.
  - now destruct (first_index p t2).
  - rewrite He, IH. now destruct (first_index p t2).
Qed.

Lemma item_projections_filter t :
  summarized (filter is_item_event t) = summarized t /\
  embedded (filter is_item_event t) = embedded t /\
  inserted (filter is_item_event t) = inserted t.
Proof.
  unfold summarized, embedded, inserted.
  induction t as [|e t (IH1 & IH2 & IH3)]; [now simpl|].
  destruct e as [[]| |[]| | |]; simpl; rewrite ?IH1, ?IH2, ?IH3; auto.
Qed.

Lemma item_projections_none t :
  Forall (fun e => is_item_event e = false) t ->
  summarized t = [] /\ embedded t = [] /\ inserted t = [].
Proof.
  unfold summarized, embedded, inserted.
  induction 1 as [|e t He H (IH1 & IH2 & IH3)]; [now simpl|].
  destruct e as [[]| |[]| | |]; simpl in *; rewrite ?IH1, ?IH2, ?IH3; auto;
    discriminate.
Qed.

Lemma setup_events_not_item t :
  Forall (fun e => is_setup_event e = true) t ->
  Forall (fun e => is_item_event e = false) t.
Proof.
  intros H. eapply Forall_impl; [|exact H].
  intros [[]| |[]| | |]; simpl; auto; discriminate.
Qed.

Lemma seq_snoc a n : seq a (S n) = seq a n ++ [(a + n)%nat].
Proof. now rewrite seq_S. Qed.

Lemma split_at {A} (k : nat) (l : list A) :
  (k < length l)%nat ->
  exists x l2,
    l = firstn k l ++ x :: l2 /\ firstn (S k) l = firstn k l ++ [x] /\
    length (firstn k l) = k.
Proof.
  revert l. induction k as [|k IH]; intros [|y l] Hk; simpl in Hk; try lia.
  - exists y, l. now simpl.
  - destruct (IH l) as (x & l2 & H1 & H2 & H3); [lia|].
    exists x, l2. rewrite !firstn_cons. split; [|split].
    + simpl. now rewrite <- H1.
    + simpl. now rewrite <- H2.
    + simpl. now rewrite H3.
Qed.

(** ** The steps, one by one *)

Lemma emits_createItemSummary p env item :
  p (Summarize item) = true -> emits p (createItemSummary env item).
Proof. intros H w. unfold createItemSummary, trace_of. simpl. repeat constructor. exact H. Qed.

Lemma terminates_createItemSummary env item : terminates (createItemSummary env item).
Proof. intros w. discriminate. Qed.

Lemma emits_processItem p env coll item :
  (forall e, is_item_event e = true -> p e = true) ->
  emits p (processItem env coll item).
Proof.
  intros H. unfold processItem, fromDocuments.
  apply emits_bind; [apply emits_createItemSummary; now apply H|intros summary].
  repeat emits_step_with ltac:(simpl; rewrite ?H by reflexivity; reflexivity).
Qed.

Lemma terminates_processItem env coll item : terminates (processItem env coll item).
Proof.
  unfold processItem, fromDocuments.
  apply terminates_bind; [apply terminates_createItemSummary|intros summary].
  repeat terminates_step.
Qed.

Lemma emits_forceGC p env : p GC = true -> emits p (forceGC env).
Proof.
  intros H. unfold forceGC.
  repeat emits_step_with ltac:(simpl; rewrite ?H; reflexivity).
Qed.

Lemma terminates_forceGC env : terminates (forceGC env).
Proof. unfold forceGC. repeat terminates_step. Qed.

Lemma emits_runBatches p env items coll B :
  (forall e, is_item_event e = true -> p e = true) ->
  (forall i b l, p (Log (ProcessingBatch i b l)) = true) ->
  p GC = true -> (forall ms, p (Sleep ms) = true) ->
  forall bs i, emits p (runBatches env items coll B i bs).
Proof.
  intros Hitem Hhead Hgc Hsleep. induction bs as [|b bs IH]; intros i; simpl.
  - apply emits_ret.
  - apply emits_bind; [|intros _; apply IH].
    unfold batchBody.
    apply emits_bind; [apply emits_tell; simpl; now rewrite Hhead|intros _].
    apply emits_bind; [apply emits_forOf; intros x; now apply emits_processItem|intros _].
    apply emits_bind; [now apply emits_forceGC|intros _].
    apply emits_tell. simpl. now rewrite Hsleep.
Qed.

Lemma emits_processBatch_loop p env items coll B :
  (forall e, is_item_event e = true -> p e = true) ->
  (forall i b l, p (Log (ProcessingBatch i b l)) = true) ->
  p GC = true -> (forall ms, p (Sleep ms) = true) ->
  forall fuel i, emits p (processBatch_loop env fuel items coll B i).
Proof.
  intros Hitem Hhead Hgc Hsleep. induction fuel as [|fuel IH]; intros i; simpl.
  - apply emits_diverge.
  - destruct (i <? Z.of_nat (length items)); [|apply emits_ret].
    apply emits_bind; [apply emits_tell; simpl; now rewrite Hhead|intros _].
    apply emits_bind; [apply emits_forOf; intros x; now apply emits_processItem|intros _].
    apply emits_bind; [now apply emits_forceGC|intros _].
    apply emits_bind; [apply emits_tell; simpl; now rewrite Hsleep|intros _].
    apply IH.
Qed.

Lemma terminates_runBatches env items coll B :
  forall bs i, terminates (runBatches env items coll B i bs).
Proof.
  induction bs as [|b bs IH]; intros i; simpl.
  - apply terminates_ret.
  - apply terminates_bind; [|intros _; apply IH].
    unfold batchBody.
    apply terminates_bind; [apply terminates_tell|intros _].
    apply terminates_bind;
      [apply terminates_forOf; intros x; apply terminates_processItem|intros _].
    apply terminates_bind; [apply terminates_forceGC|intros _].
    apply terminates_tell.
Qed.

(** With a batch size of at least one, [processBatch] ends. *)
Lemma terminates_processBatch env items coll B :
  1 <= B -> terminates (processBatch env items coll B).
Proof.
  intros HB w.
  destruct (batches_loop_spec items B HB (S (length items)) 0) as (bs & E & _);
    [lia|lia|].
  unfold processBatch. rewrite (processBatch_loop_batches _ _ _ _ _ _ _ _ E).
  apply terminates_runBatches.
Qed.

Lemma processBatch_loop_S env fuel items coll B i :
  processBatch_loop env (S fuel) items coll B i
  = if i <? Z.of_nat (length items) then
      tell [Log (ProcessingBatch i B (Z.of_nat (length items)))] ;;
      forOf (slice items i (i + B)) (processItem env coll) ;;
      forceGC env ;;
      tell [Sleep 1000] ;;
      processBatch_loop env fuel items coll B (i + B)
    else ret tt.
Proof. reflexivity. Qed.

Lemma processBatch_loop_more_fuel env items coll B :
  forall fuel i w,
    outcome_of (processBatch_loop env fuel items coll B i w) <> Diverge ->
    processBatch_loop env (S fuel) items coll B i w
    = processBatch_loop env fuel items coll B i w.
Proof.
  induction fuel as [|fuel IH]; intros i w Hnd.
  - now destruct Hnd.
  - rewrite processBatch_loop_S in Hnd.
    rewrite (processBatch_loop_S env (S fuel) items coll B i),
      (processBatch_loop_S env fuel items coll B i).
    destruct (i <? Z.of_nat (length items)); [|reflexivity].
    apply bind_more; [exact Hnd|]. intros _ w1 H1.
    apply bind_more; [exact H1|]. intros _ w2 H2.
    apply bind_more; [exact H2|]. intros _ w3 H3.
    apply bind_more; [exact H3|]. intros _ w4 H4.
    now apply IH.
Qed.

Lemma processBatch_loop_fuel env items coll B w :
  1 <= B ->
  forall fuel, (length items < fuel)%nat ->
    processBatch_loop env fuel items coll B 0 w = processBatch env items coll B w.
Proof.
  intros HB fuel Hfuel. unfold processBatch.
  replace fuel with ((fuel - S (length items)) + S (length items))%nat by lia.
  induction (fuel - S (length items))%nat as [|d IH]; [reflexivity|].
  simpl plus. rewrite processBatch_loop_more_fuel; [exact IH|].
  rewrite IH. now apply terminates_processBatch.
Qed.

(** ** The bound on the iterations in [processBatch]

    With a batch size below one and at least one item the index never
    reaches the length: every batch after the first is empty, and the loop
    can only end by an error in the first batch.  So the bound chosen in
    [processBatch] loses no run, whatever the batch size. *)

Lemma slice_nonpos {A} (l : list A) (i B : Z) :
  i <= 0 -> B <= 0 -> i < 0 \/ B = 0 -> slice l i (i + B) = [].
Proof.
  intros Hi HB Hor. unfold slice, relativeIndex.
  replace (Z.to_nat _) with 0%nat; [reflexivity|].
  destruct (Z.ltb_spec i 0), (Z.ltb_spec (i + B) 0); lia.
Qed.

Lemma processBatch_loop_nonpos env items coll B :
  B <= 0 -> items <> [] ->
  forall fuel i w,
    i <= 0 -> i < 0 \/ B = 0 ->
    outcome_of (processBatch_loop env fuel items coll B i w) = Diverge.
Proof.
  intros HB Hne. induction fuel as [|fuel IH]; intros i w Hi Hor; [reflexivity|].
  rewrite processBatch_loop_S.
  destruct (Z.ltb_spec i (Z.of_nat (length items))) as [_|Hge].
  - rewrite slice_nonpos by assumption.
    specialize (fun w' => IH (i + B) w' ltac:(lia) ltac:(lia)). revert IH.
    generalize (processBatch_loop env fuel items coll B (i + B)).
    intros k IH. unfold bind, tell, forOf, ret, forceGC, outcome_of in *.
    destruct (has_gc env); simpl;
      match goal with |- context [k ?w'] => specialize (IH w'); destruct (k w') as [[o w''] t] end;
      simpl in *; now subst o.
  - destruct items; [now destruct Hne|simpl in Hge; lia].
Qed.

Lemma processBatch_exact env items coll B w :
  forall fuel, (length items < fuel)%nat ->
    outcome_of (processBatch_loop env fuel items coll B 0 w) <> Diverge ->
    processBatch_loop env fuel items coll B 0 w = processBatch env items coll B w.
Proof.
  intros fuel Hfuel Hnd.
  destruct (Z.le_gt_cases 1 B) as [HB|HB]; [now apply processBatch_loop_fuel|].
  destruct fuel as [|fuel]; [lia|]. unfold processBatch.
  destruct items as [|x items']; [reflexivity|].
  assert (Hne : x :: items' <> []) by discriminate.
  destruct (Z.eq_dec B 0) as [->|HB0].
  - now rewrite processBatch_loop_nonpos in Hnd by (auto; lia).
  - symmetry. rewrite processBatch_loop_S in Hnd.
    rewrite (processBatch_loop_S env fuel (x :: items') coll B 0),
      (processBatch_loop_S env (length (x :: items')) (x :: items') coll B 0).
    destruct (0 <? Z.of_nat (length (x :: items'))); [|reflexivity].
    apply bind_more; [exact Hnd|]. intros _ w1 H1.
    apply bind_more; [exact H1|]. intros _ w2 H2.
    apply bind_more; [exact H2|]. intros _ w3 H3.
    apply bind_more; [exact H3|]. intros _ w4 H4.
    rewrite processBatch_loop_nonpos in H4 by (auto; lia). now destruct H4.
Qed.

(** With a batch size of zero the index stays at zero, every batch is
    empty, and the loop never ends on a non-empty list. *)
Lemma processBatch_loop_zero env items coll :
  items <> [] ->
  forall fuel w, outcome_of (processBatch_loop env fuel items coll 0 0 w) = Diverge.
Proof.
  intros Hne fuel w. apply processBatch_loop_nonpos; auto; lia.
Qed.

(** C10. [processBatch] ends for every list of items when [batchSize >= 1]:
    a number of iterations is enough, and any larger number gives the same
    run.  With [batchSize = 0] and at least one item no number of iterations
    is enough. *)
Theorem C10_termination :
  (forall env items coll B w,
      1 <= B ->
      outcome_of (processBatch env items coll B w) <> Diverge /\
      forall fuel, (length items < fuel)%nat ->
        processBatch_loop env fuel items coll B 0 w = processBatch env items coll B w) /\
  (forall env items coll w fuel,
      items <> [] ->
      outcome_of (processBatch_loop env fuel items coll 0 0 w) = Diverge).
Proof.
  split.
  - intros env items coll B w HB. split.
    + now apply terminates_processBatch.
    + now apply processBatch_loop_fuel.
  - intros env items coll w fuel Hne. now apply processBatch_loop_zero.
Qed.

Lemma C10_termination_witness :
  outcome_of (processBatch (sampleEnv noFailure JNull)
                [sampleItem 10%float 5%float; sampleItem 20%float 15%float]
                itemsCollection 1 emptyWorld) <> Diverge /\
  outcome_of (processBatch_loop (sampleEnv noFailure JNull) 50
                [sampleItem 10%float 5%float] itemsCollection 0 0 emptyWorld) = Diverge.
Proof.
  split.
  - apply (proj1 C10_termination). lia.
  - apply (proj2 C10_termination). discriminate.
Defined.

(** ** The schema *)

Lemma parse_all_Forall2 {A} (s : schema A) l out :
  parse_all s l = Some out <-> Forall2 (fun v a => s v = Some a) l out.
Proof.
  revert out. induction l as [|v l IH]; intros out; simpl.
  - split.
    + intros [= <-]. constructor.
    + intros H. now inversion H.
  - destruct (s v) as [a|] eqn:Ev.
    + destruct (parse_all s l) as [l'|] eqn:El.
      * split.
        -- intros [= <-]. constructor; auto. now apply IH.
        -- intros H. inversion H as [|v' a' l0 out' Hv Hl]; subst.
           apply IH in Hl. congruence.
      * split; [discriminate|].
        intros H. inversion H as [|v' a' l0 out' Hv Hl]; subst.
        apply IH in Hl. discriminate.
    + split; [discriminate|].
      intros H. inversion H; subst. congruence.
Qed.

Lemma parse_all_reject {A} (s : schema A) l v :
  In v l -> s v = None -> parse_all s l = None.
Proof.
  intros Hin Hv. destruct (parse_all s l) as [out|] eqn:E; [|reflexivity].
  apply parse_all_Forall2 in E. exfalso.
  induction E as [|v' a l' out' Hs E IH]; [contradiction|].
  destruct Hin as [->|Hin]; [congruence|auto].
Qed.

Lemma generateSyntheticData_ok env w items :
  outcome_of (generateSyntheticData env w) = Ok items ->
  fails env llm_invoke = None /\
  exists v, json_of_text env (llm_content env) = Some v /\ parserSchema v = Some items.
Proof.
  unfold generateSyntheticData, parser_parse, bind, tell, request, throw, ret, outcome_of.
  simpl. destruct (fails env llm_invoke); simpl; [discriminate|].
  destruct (json_of_text env (llm_content env)) as [v|]; simpl; [|discriminate].
  destruct (parserSchema v) as [l|] eqn:E; simpl; [|discriminate].
  intros [= <-]. split; [reflexivity|]. now exists v.
Qed.

Lemma generateSyntheticData_reject env v :
  json_of_text env (llm_content env) = Some v -> parserSchema v = None ->
  fails_to_return (generateSyntheticData env).
Proof.
  intros Hv Hs w items H. apply generateSyntheticData_ok in H.
  destruct H as (_ & v' & Hv' & Hs'). congruence.
Qed.

(** C7. The reply of the model is taken whole or not at all: when one of
    its elements fails [itemSchema], [generateSyntheticData] throws and
    returns no list; and a list it returns is, element by element, the
    validated form of the reply. *)
Theorem C7_all_or_nothing (env : Env) (w : World) :
  (forall l v,
      json_of_text env (llm_content env) = Some (JArr l) ->
      In v l -> itemSchema v = None ->
      exists e, outcome_of (generateSyntheticData env w) = Throw e) /\
  (forall items,
      outcome_of (generateSyntheticData env w) = Ok items ->
      exists l,
        json_of_text env (llm_content env) = Some (JArr l) /\
        Forall2 (fun v item => itemSchema v = Some item) l items).
Proof.
  split.
  - intros l v Hl Hin Hv.
    pose proof (parse_all_reject itemSchema l v Hin Hv) as Hrej.
    unfold generateSyntheticData, parser_parse, bind, tell, request, throw, outcome_of.
    simpl. destruct (fails env llm_invoke) as [e|]; simpl; [now exists e|].
    rewrite Hl. unfold parserSchema, z_array. rewrite Hrej. simpl. eauto.
  - intros items H. apply generateSyntheticData_ok in H.
    destruct H as (_ & v & Hv & Hs). unfold parserSchema, z_array in Hs.
    destruct v as [| | | |l|]; try discriminate.
    exists l. split; [exact Hv|]. now apply parse_all_Forall2.
Qed.

Lemma C7_all_or_nothing_witness :
  (exists e,
      outcome_of (generateSyntheticData
                    (sampleEnv noFailure
                       (JArr [sampleCandidate (JNum 10%float) (JNum 5%float);
                              sampleCandidate (JStr "ten") (JNum 5%float)]))
                    emptyWorld) = Throw e) /\
  (exists l,
      Forall2 (fun v item => itemSchema v = Some item) l
        [sampleItem 10%float 5%float]).
Proof.
  split.
  - apply (proj1 (C7_all_or_nothing _ emptyWorld)
             [sampleCandidate (JNum 10%float) (JNum 5%float);
              sampleCandidate (JStr "ten") (JNum 5%float)]
             (sampleCandidate (JStr "ten") (JNum 5%float))).
    + reflexivity.
    + simpl. auto.
    + reflexivity.
  - destruct (proj2 (C7_all_or_nothing
                       (sampleEnv noFailure
                          (JArr [sampleCandidate (JNum 10%float) (JNum 5%float)]))
                       emptyWorld)
                [sampleItem 10%float 5%float]) as (l & _ & H).
    + reflexivity.
    + now exists l.
Defined.

(** ** The run of [seedDatabase] *)

Lemma seedDatabase_try_split env w :
  seedDatabase_try env w = (seed_setup env ;; seed_ingest env) w.
Proof.
  unfold seedDatabase_try, seed_setup, seed_ingest.
  repeat (rewrite bind_assoc; apply bind_ext; intros _ ?w).
  reflexivity.
Qed.

Lemma terminates_generateSyntheticData env : terminates (generateSyntheticData env).
Proof. unfold generateSyntheticData, parser_parse. repeat terminates_step. Qed.

Lemma terminates_seed_setup env : terminates (seed_setup env).
Proof.
  unfold seed_setup, setupDatabaseAndCollection, createVectorSearchIndex.
  repeat terminates_step.
Qed.

Lemma terminates_seed_ingest env : terminates (seed_ingest env).
Proof.
  unfold seed_ingest.
  repeat first [ apply terminates_generateSyntheticData
               | apply terminates_processBatch; lia
               | terminates_step ].
Qed.

Lemma terminates_seedDatabase_try env : terminates (seedDatabase_try env).
Proof.
  intros w. rewrite seedDatabase_try_split.
  apply terminates_bind; [apply terminates_seed_setup|intros _; apply terminates_seed_ingest].
Qed.

Lemma emits_seed_setup env : emits is_setup_event (seed_setup env).
Proof.
  unfold seed_setup, setupDatabaseAndCollection, createVectorSearchIndex.
  repeat emits_step.
Qed.

Lemma emits_generateSyntheticData env : emits is_ingest_event (generateSyntheticData env).
Proof. unfold generateSyntheticData, parser_parse. repeat emits_step. Qed.

Lemma emits_processBatch env items coll B :
  emits is_ingest_event (processBatch env items coll B).
Proof.
  unfold processBatch. apply emits_processBatch_loop; try reflexivity.
  intros [[]| | | | |]; simpl; auto.
Qed.

Lemma emits_seed_ingest env : emits is_ingest_event (seed_ingest env).
Proof.
  unfold seed_ingest.
  repeat first [ apply emits_generateSyntheticData | apply emits_processBatch | emits_step ].
Qed.

(** The [try] block with its [catch] clause never diverges, never throws,
    and never closes the connection. *)
Lemma seedDatabase_caught env w :
  exists w1 t1,
    try_catch (seedDatabase_try env)
      (fun error => tell [LogError "Error seeding database:" error]) w = (Ok tt, w1, t1) /\
    filter is_close t1 = [] /\
    (forall e, outcome_of (seedDatabase_try env w) = Throw e ->
               In (LogError "Error seeding database:" e) t1).
Proof.
  pose proof (terminates_seedDatabase_try env w) as Hnd.
  assert (Hem : emits (fun e => negb (is_close e)) (seedDatabase_try env)).
  { intros w0. rewrite seedDatabase_try_split.
    apply emits_bind.
    - eapply emits_weaken; [|apply emits_seed_setup].
      intros [[]| | [] | | |]; simpl; auto.
    - intros _. eapply emits_weaken; [|apply emits_seed_ingest].
      intros [[]| | | | |]; simpl; auto. }
  specialize (Hem w). unfold try_catch, tell, outcome_of, trace_of in *.
  destruct (seedDatabase_try env w) as [[[[]|e|] w1] t1]; simpl in *.
  - exists w1, t1. split; [reflexivity|]. split; [|discriminate].
    eapply filter_none; [exact Hem|]. intros e0 He. now apply negb_true_iff in He.
  - exists w1, (t1 ++ [LogError "Error seeding database:" e]).
    split; [reflexivity|]. split.
    + rewrite filter_app. simpl. rewrite app_nil_r.
      eapply filter_none; [exact Hem|]. intros e0 He. now apply negb_true_iff in He.
    + intros e' [= <-]. apply in_or_app. right. now left.
  - now destruct Hnd.
Qed.

(** C9. Every run of [seedDatabase] calls [client.close()] exactly once, as
    its last step, whether the [try] block ended normally or threw.  An error
    thrown in the [try] block is logged and does not reach the caller: the
    run ends as the closing of the connection ends. *)
Theorem C9_close_once (env : Env) (w : World) :
  length (filter is_close (trace_of (seedDatabase env w))) = 1%nat /\
  (exists t, trace_of (seedDatabase env w) = t ++ [Call client_close]) /\
  outcome_of (seedDatabase env w)
    = match fails env client_close with None => Ok tt | Some e => Throw e end /\
  (forall e, outcome_of (seedDatabase_try env w) = Throw e ->
             In (LogError "Error seeding database:" e) (trace_of (seedDatabase env w))).
Proof.
  destruct (seedDatabase_caught env w) as (w1 & t1 & E & Hclose & Hlog).
  unfold seedDatabase, try_finally. rewrite E.
  unfold client_close', bind, request, modify, outcome_of, trace_of.
  destruct (fails env client_close) as [e|]; simpl;
    rewrite filter_app, Hclose; simpl; (split; [reflexivity|]);
    (split; [now exists t1|]); (split; [reflexivity|]);
    intros e' He'; apply in_or_app; left; now apply Hlog.
Qed.

Lemma C9_close_once_witness :
  In (LogError "Error seeding database:" (RequestError "refused"))
     (trace_of (seedDatabase
                  (sampleEnv (rejecting [client_connect] (RequestError "refused")) JNull)
                  emptyWorld)).
Proof.
  apply (proj2 (proj2 (proj2 (C9_close_once _ _)))). reflexivity.
Defined.

(** A run of [seedDatabase] starts with provisioning events; then either
    the provisioning failed, which is logged before the connection is
    closed, or the collection is cleared. *)
Lemma seedDatabase_trace_shape env w :
  exists t1,
    Forall (fun e => is_setup_event e = true) t1 /\
    ((exists e,
         trace_of (seedDatabase env w)
         = t1 ++ [LogError "Error seeding database:" e; Call client_close]) \/
     (exists rest, trace_of (seedDatabase env w) = t1 ++ Call deleteMany :: rest)).
Proof.
  pose proof (emits_seed_setup env w) as Hsetup.
  pose proof (terminates_seed_setup env w) as Hnd.
  unfold seedDatabase, try_finally, try_catch. rewrite seedDatabase_try_split.
  unfold trace_of, outcome_of in *.
  destruct (seed_setup env w) as [[[[]|e|] w1] t1] eqn:E; simpl in Hsetup, Hnd.
  - exists t1. split; [exact Hsetup|]. right.
    rewrite (bind_Ok _ _ _ _ _ _ E). unfold seed_ingest.
    destruct (fails env deleteMany) as [e|] eqn:Ed.
    + rewrite (bind_Throw _ _ _ _ _ _ (request_Throw _ _ _ _ Ed)).
      unfold tell, client_close', bind, request, modify.
      destruct (fails env client_close); simpl; rewrite <- !app_assoc; simpl; eauto.
    + rewrite (bind_Ok _ _ _ _ _ _ (request_Ok _ _ _ Ed)).
      match goal with |- context [bind ?m ?f w1] => destruct (bind m f w1) as [[o w2] t2] end.
      unfold tell, client_close', bind, request, modify.
      destruct o as [[]|e|]; destruct (fails env client_close); simpl;
        rewrite <- ?app_assoc; simpl; eauto.
  - exists t1. split; [exact Hsetup|]. left. exists e.
    rewrite (bind_Throw _ _ _ _ _ _ E).
    unfold tell, client_close', bind, request, modify.
    destruct (fails env client_close); simpl; rewrite <- ?app_assoc; reflexivity.
  - now destruct Hnd.
Qed.

(** C5, as the code has it.  In every run the collection is cleared before
    the records are requested: a run that issues the generation request has
    issued the [deleteMany] earlier. *)
Theorem C5_clear_precedes_generate (env : Env) (w : World) (i : nat) :
  first_index is_generate (trace_of (seedDatabase env w)) = Some i ->
  exists j,
    first_index is_clear (trace_of (seedDatabase env w)) = Some j /\ (j < i)%nat.
Proof.
  destruct (seedDatabase_trace_shape env w) as (t1 & Ht1 & [[e E]|[rest E]]);
    rewrite E; intros Hgen.
  - rewrite first_index_app in Hgen; [discriminate|].
    eapply Forall_impl; [|exact Ht1]. intros [[]| | | | |]; simpl; auto; discriminate.
  - exists (length t1). split.
    + rewrite first_index_app; [simpl; f_equal; lia|].
      eapply Forall_impl; [|exact Ht1]. intros [[]| | | | |]; simpl; auto; discriminate.
    + rewrite first_index_app in Hgen.
      * simpl in Hgen. destruct (first_index is_generate rest); simpl in Hgen;
          [injection Hgen as <-; lia|discriminate].
      * eapply Forall_impl; [|exact Ht1].
        intros [[]| | | | |]; simpl; auto; discriminate.
Qed.

Lemma C5_clear_precedes_generate_witness :
  exists j,
    first_index is_clear
      (trace_of (seedDatabase (sampleEnv noFailure (JArr [])) emptyWorld)) = Some j /\
    (j < 15)%nat.
Proof.
  apply (C5_clear_precedes_generate (sampleEnv noFailure (JArr [])) emptyWorld 15).
  reflexivity.
Defined.

(** C5 as claimed.  That the records are generated before the collection
    is cleared fails on a run in which every request succeeds: the
    [deleteMany] is event 12 of the run and the generation request event 15. *)
Lemma C5_generate_first_counterexample :
  ~ (forall env w i j,
        first_index is_generate (trace_of (seedDatabase env w)) = Some i ->
        first_index is_clear (trace_of (seedDatabase env w)) = Some j ->
        (i < j)%nat).
Proof.
  intros H.
  specialize (H (sampleEnv noFailure (JArr [])) emptyWorld 15%nat 12%nat
                eq_refl eq_refl).
  lia.
Qed.

(** ** Prices *)

Lemma prices_rejected v :
  price_of "full_price" v = None \/ price_of "sale_price" v = None ->
  field "prices" pricesSchema v = None.
Proof.
  unfold price_of, field. destruct v as [| | | | |fields]; auto.
  destruct (assoc "prices" fields) as [pv|]; auto.
  unfold pricesSchema, obind.
  destruct pv as [| | | | |pf]; auto. unfold field.
  intros [H|H]; rewrite H; auto.
  now destruct (match assoc "full_price" pf with Some x => z_number x | None => None end).
Qed.

Lemma itemSchema_prices_rejected v :
  price_of "full_price" v = None \/ price_of "sale_price" v = None ->
  itemSchema v = None.
Proof.
  intros H. apply prices_rejected in H. unfold itemSchema, obind. rewrite H.
  repeat match goal with
         | |- match ?x with Some _ => _ | None => None end = None =>
             destruct x; [|reflexivity]
         end.
  reflexivity.
Qed.

(** A run in which the reply of the model fails the schema writes nothing. *)
Lemma seedDatabase_rejected_writes_nothing env w v :
  json_of_text env (llm_content env) = Some v -> parserSchema v = None ->
  inserted (trace_of (seedDatabase env w)) = [].
Proof.
  intros Hv Hs. apply inserted_none.
  assert (Hem : emits (fun e => negb (is_insert e)) (seedDatabase env)); [|apply Hem].
  unfold seedDatabase, client_close'.
  apply emits_try_finally; [apply emits_try_catch|]; [| |repeat emits_step].
  - intros w0. rewrite seedDatabase_try_split. apply emits_bind.
    + eapply emits_weaken; [|apply emits_seed_setup].
      intros [[]| | | | |]; simpl; auto.
    + intros _. unfold seed_ingest. do 3 (apply emits_bind; [repeat emits_step|intros _]).
      apply emits_bind_stop.
      * unfold generateSyntheticData, parser_parse. repeat emits_step.
      * eapply generateSyntheticData_reject; eauto.
  - intros e. repeat emits_step.
Qed.

(** C6, as the code has it.  The schema asks of [full_price] and
    [sale_price] only that they are numbers.  A candidate in which one of
    them is missing or is not a number is rejected, and a run whose reply
    contains it writes no document.  Two numbers are accepted as prices
    whatever their sign. *)
Theorem C6_prices_must_be_numbers :
  (forall v,
      price_of "full_price" v = None \/ price_of "sale_price" v = None ->
      itemSchema v = None /\
      forall env w l1 l2,
        json_of_text env (llm_content env) = Some (JArr (l1 ++ v :: l2)) ->
        inserted (trace_of (seedDatabase env w)) = []) /\
  (forall fields x y,
      assoc "full_price" fields = Some (JNum x) ->
      assoc "sale_price" fields = Some (JNum y) ->
      PrimFloat.is_nan x = false -> PrimFloat.is_nan y = false ->
      pricesSchema (JObj fields) = Some (mkPrices x y)).
Proof.
  split.
  - intros v Hv. pose proof (itemSchema_prices_rejected v Hv) as Hrej.
    split; [exact Hrej|]. intros env w l1 l2 Hreply.
    eapply seedDatabase_rejected_writes_nothing; [exact Hreply|].
    unfold parserSchema, z_array. eapply parse_all_reject; [|exact Hrej].
    apply in_or_app. right. now left.
  - intros fields x y Hx Hy Nx Ny.
    unfold pricesSchema, obind, field, z_number. now rewrite Hx, Hy, Nx, Ny.
Qed.

Lemma C6_prices_must_be_numbers_witness :
  itemSchema (sampleCandidate (JStr "ten") (JNum 5%float)) = None /\
  inserted (trace_of (seedDatabase
                        (sampleEnv noFailure
                           (JArr [sampleCandidate (JStr "ten") (JNum 5%float)]))
                        emptyWorld)) = [] /\
  pricesSchema (JObj [("full_price", JNum (-5)%float); ("sale_price", JNum (-1)%float)])
  = Some (mkPrices (-5)%float (-1)%float).
Proof.
  destruct (proj1 C6_prices_must_be_numbers
              (sampleCandidate (JStr "ten") (JNum 5%float))) as [H1 H2].
  { left. reflexivity. }
  split; [exact H1|]. split.
  - apply (H2 _ emptyWorld [] []). reflexivity.
  - apply (proj2 C6_prices_must_be_numbers); reflexivity.
Defined.

(** C6 as claimed.  That a negative price is rejected fails on a candidate that
    is well-formed but for its prices of -5 and -1: it passes the schema,
    and the run stores a document made from it. *)
Lemma C6_negative_price_counterexample :
  ~ (forall v x,
        price_of "full_price" v = Some x \/ price_of "sale_price" v = Some x ->
        PrimFloat.ltb x 0%float = true ->
        itemSchema v = None) /\
  map metadata
    (documents
       (world_of (seedDatabase
                    (sampleEnv noFailure
                       (JArr [sampleCandidate (JNum (-5)%float) (JNum (-1)%float)]))
                    emptyWorld)))
  = [sampleItem (-5)%float (-1)%float].
Proof.
  split; [|reflexivity].
  intros H.
  specialize (H (sampleCandidate (JNum (-5)%float) (JNum (-1)%float)) (-5)%float
                (or_introl eq_refl) eq_refl).
  discriminate H.
Qed.

(** ** One item, and a list of items *)

Lemma processItem_ok env coll item w :
  item_ok env (requests w) ->
  exists d,
    metadata d = item /\
    processItem env coll item w
    = (Ok tt, set_documents (documents w ++ [d]) (next_request w),
       [Summarize item; Call (embedDocuments (requests w));
        Call (insertMany (requests w)); Log (SavedRecord (item_id item))]).
Proof.
  intros [He Hi].
  unfold processItem, createItemSummary, fromDocuments, bind, tell, ret, gets, modify,
    request.
  cbn [requests next_request app map pageContent doc_metadata documents].
  rewrite He, Hi. cbn [app documents next_request].
  eexists. split; [|reflexivity]. reflexivity.
Qed.

Lemma processItem_fails env coll item w e :
  item_fails env (requests w) e ->
  exists t,
    processItem env coll item w = (Throw e, next_request w, t) /\
    summarized t = [item] /\ embedded t = [requests w] /\
    (inserted t = [] \/ inserted t = [requests w]) /\
    Forall (fun ev => is_item_event ev = true) t.
Proof.
  unfold processItem, createItemSummary, fromDocuments, bind, tell, ret, gets, modify,
    request.
  cbn [requests next_request app map pageContent doc_metadata documents].
  intros [He|[He Hi]]; rewrite He; [|rewrite Hi]; cbn [app];
    eexists; (split; [reflexivity|]); repeat split; auto; repeat constructor.
Qed.

Lemma forOf_all_ok env coll :
  forall l w,
    (forall j, (j < length l)%nat -> item_ok env (requests w + j)) ->
    exists w' t,
      forOf l (processItem env coll) w = (Ok tt, w', t) /\
      map metadata (documents w') = map metadata (documents w) ++ l /\
      requests w' = (requests w + length l)%nat /\
      summarized t = l /\
      embedded t = seq (requests w) (length l) /\
      inserted t = seq (requests w) (length l) /\
      Forall (fun ev => is_item_event ev = true) t.
Proof.
  induction l as [|x l IH]; intros w Hok.
  - exists w, []. simpl. rewrite app_nil_r, Nat.add_0_r. repeat split; auto.
  - destruct (processItem_ok env coll x w) as (d & Hd & E).
    { specialize (Hok 0%nat). rewrite Nat.add_0_r in Hok. apply Hok. simpl. lia. }
    destruct (IH (set_documents (documents w ++ [d]) (next_request w)))
      as (w' & t & E' & Hdocs & Hreq & Hsum & Hemb & Hins & Hall).
    { intros j Hj. simpl. replace (S (requests w + j)) with (requests w + S j)%nat by lia.
      apply Hok. simpl. lia. }
    simpl in Hdocs, Hreq, Hemb, Hins.
    eexists w', _. split.
    { simpl. rewrite (bind_Ok _ _ _ _ _ _ E), E'. reflexivity. }
    split; [|split; [|split; [|split; [|split]]]].
    + rewrite Hdocs, map_app, <- app_assoc. simpl. now rewrite Hd.
    + rewrite Hreq. simpl. lia.
    + simpl. unfold summarized in *. simpl. now rewrite Hsum.
    + unfold embedded in *. simpl. now rewrite Hemb.
    + unfold inserted in *. simpl. now rewrite Hins.
    + repeat constructor. exact Hall.
Qed.

Lemma forOf_first_failure env coll l1 x l2 w e :
  (forall j, (j < length l1)%nat -> item_ok env (requests w + j)) ->
  item_fails env (requests w + length l1) e ->
  exists w' t,
    forOf (l1 ++ x :: l2) (processItem env coll) w = (Throw e, w', t) /\
    map metadata (documents w') = map metadata (documents w) ++ l1 /\
    summarized t = l1 ++ [x] /\
    embedded t = seq (requests w) (S (length l1)) /\
    (inserted t = seq (requests w) (length l1) \/
     inserted t = seq (requests w) (S (length l1))) /\
    Forall (fun ev => is_item_event ev = true) t.
Proof.
  intros Hok Hfail.
  destruct (forOf_all_ok env coll l1 w Hok)
    as (w1 & t1 & E1 & Hdocs & Hreq & Hsum & Hemb & Hins & Hall).
  rewrite <- Hreq in Hfail.
  destruct (processItem_fails env coll x w1 e Hfail)
    as (t2 & E2 & Hsum2 & Hemb2 & Hins2 & Hall2).
  exists (next_request w1), (t1 ++ t2). split.
  { rewrite forOf_app, (bind_Ok _ _ _ _ _ _ E1). simpl.
    now rewrite (bind_Throw _ _ _ _ _ _ E2). }
  split; [exact Hdocs|].
  unfold summarized, embedded, inserted in *.
  rewrite !flat_map_app, Hsum, Hsum2, Hemb, Hemb2, Hins, Hreq, seq_snoc.
  rewrite Hreq in Hins2.
  repeat split; auto.
  - destruct Hins2 as [->| ->]; [left; now rewrite app_nil_r|right; reflexivity].
  - apply Forall_app. now split.
Qed.

(** ** The batch loop *)

Lemma batchBody_run env items coll B i b w :
  batchBody env items coll B i b w =
  match forOf b (processItem env coll) w with
  | (Ok _, w1, t1) =>
      (Ok tt, w1, Log (ProcessingBatch i B (Z.of_nat (length items))) :: t1 ++ pauseEvents env)
  | (Throw e, w1, t1) =>
      (Throw e, w1, Log (ProcessingBatch i B (Z.of_nat (length items))) :: t1)
  | (Diverge, w1, t1) =>
      (Diverge, w1, Log (ProcessingBatch i B (Z.of_nat (length items))) :: t1)
  end.
Proof.
  unfold batchBody, bind, tell, forceGC, pauseEvents, ret.
  destruct (forOf b (processItem env coll) w) as [[[[]|e|] w1] t1]; auto.
  destruct (has_gc env); reflexivity.
Qed.

Lemma forOf_processItem_events env coll l w :
  Forall (fun e => is_item_event e = true) (trace_of (forOf l (processItem env coll) w)).
Proof. apply emits_forOf. intros x. now apply emits_processItem. Qed.

Lemma filter_pauseEvents env : filter is_item_event (pauseEvents env) = [].
Proof. unfold pauseEvents. now destruct (has_gc env). Qed.

(** Leaving the announcements, the reclamations and the pauses aside, the
    batch loop is the loop over the items. *)
Lemma runBatches_flat env items coll B :
  forall bs i w,
    outcome_of (runBatches env items coll B i bs w)
      = outcome_of (forOf (concat bs) (processItem env coll) w) /\
    world_of (runBatches env items coll B i bs w)
      = world_of (forOf (concat bs) (processItem env coll) w) /\
    filter is_item_event (trace_of (runBatches env items coll B i bs w))
      = trace_of (forOf (concat bs) (processItem env coll) w).
Proof.
  induction bs as [|b bs IH]; intros i w; [now simpl|].
  cbn [runBatches concat].
  pose proof (forOf_processItem_events env coll b w) as Hev.
  pose proof (terminates_forOf b _ (terminates_processItem env coll) w) as Hnd.
  pose proof (batchBody_run env items coll B i b w) as Eb.
  unfold trace_of, outcome_of in Hev, Hnd.
  destruct (forOf b (processItem env coll) w) as [[[[]|e|] w1] t1] eqn:E;
    simpl in Hev, Hnd.
  - rewrite (bind_Ok _ _ _ _ _ _ Eb), forOf_app, (bind_Ok _ _ _ _ _ _ E).
    specialize (IH (i + B) w1). destruct IH as (Ho & Hw & Ht).
    unfold trace_of, outcome_of, world_of in *.
    destruct (runBatches env items coll B (i + B) bs w1) as [[o2 w2] t2].
    destruct (forOf (concat bs) (processItem env coll) w1) as [[o3 w3] t3].
    simpl in *. subst. repeat split.
    rewrite !filter_app, filter_pauseEvents, (filter_all _ _ Hev), app_nil_r.
    reflexivity.
  - rewrite (bind_Throw _ _ _ _ _ _ Eb), forOf_app, (bind_Throw _ _ _ _ _ _ E).
    unfold trace_of, outcome_of, world_of. simpl. repeat split.
    now rewrite (filter_all _ _ Hev).
  - now destruct Hnd.
Qed.

Lemma processBatch_flat env items coll B w :
  1 <= B ->
  outcome_of (processBatch env items coll B w)
    = outcome_of (forOf items (processItem env coll) w) /\
  world_of (processBatch env items coll B w)
    = world_of (forOf items (processItem env coll) w) /\
  filter is_item_event (trace_of (processBatch env items coll B w))
    = trace_of (forOf items (processItem env coll) w).
Proof.
  intros HB.
  destruct (batches_loop_spec items B HB (S (length items)) 0)
    as (bs & E & Hcat & _); [lia|lia|].
  unfold processBatch. rewrite (processBatch_loop_batches _ _ _ _ _ _ _ _ E).
  simpl in Hcat. rewrite <- Hcat at 2 4 6. apply runBatches_flat.
Qed.

(** The trace of the batch loop, batch by batch. *)
Lemma runBatches_trace env items coll B :
  forall bs i w,
    exists segs,
      Forall (Forall (fun e => is_item_event e = true)) segs /\
      match outcome_of (runBatches env items coll B i bs w) with
      | Ok _ =>
          trace_of (runBatches env items coll B i bs w)
            = completedBatches env B (Z.of_nat (length items)) i segs /\
          length segs = length bs
      | Throw _ =>
          exists seg,
            Forall (fun e => is_item_event e = true) seg /\
            trace_of (runBatches env items coll B i bs w)
              = completedBatches env B (Z.of_nat (length items)) i segs
                  ++ Log (ProcessingBatch (i + B * Z.of_nat (length segs)) B
                            (Z.of_nat (length items))) :: seg
      | Diverge => False
      end.
Proof.
  induction bs as [|b bs IH]; intros i w.
  - exists []. split; [constructor|]. simpl. auto.
  - cbn [runBatches]. unfold bind. rewrite batchBody_run.
    pose proof (forOf_processItem_events env coll b w) as Hev.
    pose proof (terminates_forOf b _ (terminates_processItem env coll) w) as Hnd.
    unfold trace_of, outcome_of in *.
    destruct (forOf b (processItem env coll) w) as [[[[]|e|] w1] t1]; simpl in Hev, Hnd.
    + destruct (IH (i + B) w1) as (segs & Hsegs & H).
      destruct (runBatches env items coll B (i + B) bs w1) as [[o2 w2] t2].
      exists (t1 :: segs). split; [now constructor|].
      simpl in *. destruct o2 as [[]|e|]; [| |contradiction].
      * destruct H as [-> Hlen]. split; [|now rewrite Hlen].
        now rewrite <- app_assoc.
      * destruct H as (seg & Hseg & ->). exists seg. split; [exact Hseg|].
        rewrite <- !app_assoc. simpl. do 7 f_equal. lia.
    + exists []. split; [constructor|]. exists t1. split; [exact Hev|].
      simpl. do 3 f_equal. lia.
    + now destruct Hnd.
Qed.

(** C4, as the code has it.  A batch whose items were all processed is
    followed by the request for reclamation (a call of [global.gc] when the
    runtime has one) and then by the pause of 1000 ms, and only then does
    the next batch start.  When an item fails the loop is left at once: the
    trace ends with the events of the items of that batch, with neither
    reclamation nor pause after them. *)
Theorem C4_pause_after_completed_batch
    (env : Env) (items : list Item) (coll : Collection) (B : Z) (w : World) :
  1 <= B ->
  exists segs,
    Forall (Forall (fun e => is_item_event e = true)) segs /\
    match outcome_of (processBatch env items coll B w) with
    | Ok _ =>
        trace_of (processBatch env items coll B w)
          = completedBatches env B (Z.of_nat (length items)) 0 segs /\
        Z.of_nat (length segs) = ceilDiv (Z.of_nat (length items)) B
    | Throw _ =>
        exists seg,
          Forall (fun e => is_item_event e = true) seg /\
          trace_of (processBatch env items coll B w)
            = completedBatches env B (Z.of_nat (length items)) 0 segs
                ++ Log (ProcessingBatch (B * Z.of_nat (length segs)) B
                          (Z.of_nat (length items))) :: seg
    | Diverge => False
    end.
Proof.
  intros HB.
  destruct (batches_loop_spec items B HB (S (length items)) 0)
    as (bs & E & _ & Hlen & _); [lia|lia|].
  rewrite Z.sub_0_r in Hlen.
  unfold processBatch. rewrite (processBatch_loop_batches _ _ _ _ _ _ _ _ E).
  destruct (runBatches_trace env items coll B bs 0 w) as (segs & Hsegs & H).
  exists segs. split; [exact Hsegs|].
  destruct (outcome_of (runBatches env items coll B 0 bs w)) as [[]|e|]; auto.
  destruct H as [Ht Hl]. split; [exact Ht|]. now rewrite Hl.
Qed.

Lemma C4_pause_after_completed_batch_witness :
  exists segs,
    Forall (Forall (fun e => is_item_event e = true)) segs /\
    trace_of (processBatch (sampleEnv noFailure JNull)
                [sampleItem 10%float 5%float; sampleItem 20%float 15%float]
                itemsCollection 1 emptyWorld)
    = completedBatches (sampleEnv noFailure JNull) 1 2 0 segs /\
    Z.of_nat (length segs) = 2.
Proof.
  apply (C4_pause_after_completed_batch (sampleEnv noFailure JNull)
           [sampleItem 10%float 5%float; sampleItem 20%float 15%float]
           itemsCollection 1 emptyWorld).
  lia.
Defined.

(** C4 as claimed.  That the pause comes after every batch, also after one
    in which an item failed, fails on a run of one batch whose first embedding
    request is rejected: the batch is announced and no pause follows. *)
Lemma C4_pause_unconditional_counterexample :
  ~ (forall env items coll B w,
        1 <= B ->
        length (filter is_sleep (trace_of (processBatch env items coll B w)))
        = length (filter is_header (trace_of (processBatch env items coll B w)))).
Proof.
  intros H.
  specialize (H (sampleEnv (rejecting [embedDocuments 0] (RequestError "quota")) JNull)
                [sampleItem 10%float 5%float] itemsCollection 3 emptyWorld ltac:(lia)).
  discriminate H.
Qed.

(** ** The run of [seedDatabase], step by step *)

Lemma createVectorSearchIndex_returns env w :
  exists w1 t,
    createVectorSearchIndex env w = (Ok tt, w1, t) /\
    documents w1 = documents w /\ requests w1 = requests w /\
    connected w1 = connected w /\
    forall e,
      fails env dropIndexes = Some e \/
      (fails env dropIndexes = None /\ fails env createSearchIndex = Some e) ->
      w1 = w /\ In (LogError "Failed to create vector search index:" e) t.
Proof.
  unfold createVectorSearchIndex, try_catch, bind, request, tell, modify.
  destruct (fails env dropIndexes) as [e1|] eqn:Ed; simpl.
  - eexists _, _. split; [reflexivity|]. repeat split; auto;
      destruct H as [[= <-]|[[=] _]]; simpl; auto.
  - destruct (fails env createSearchIndex) as [e2|] eqn:Ec; simpl.
    + eexists _, _. split; [reflexivity|]. repeat split; auto;
        destruct H as [[=]|[_ [= <-]]]; simpl; auto.
    + eexists _, _. split; [reflexivity|]. repeat split; auto;
        destruct H as [[=]|[_ [=]]].
Qed.

Lemma setupDatabaseAndCollection_run env w :
  fails env listCollections = None -> fails env createCollection = None ->
  exists w1 t,
    setupDatabaseAndCollection env w = (Ok tt, w1, t) /\
    documents w1 = documents w /\ requests w1 = requests w.
Proof.
  intros Hl Hc.
  unfold setupDatabaseAndCollection, bind, request, tell, modify, gets.
  rewrite Hl. simpl. destruct (items_collection_exists w); simpl.
  - eexists _, _. split; [reflexivity|]. split; reflexivity.
  - rewrite Hc. simpl. eexists _, _. split; [reflexivity|]. split; reflexivity.
Qed.

Lemma seed_setup_run env w :
  fails env client_connect = None -> fails env admin_ping = None ->
  fails env listCollections = None -> fails env createCollection = None ->
  exists w1 t1,
    seed_setup env w = (Ok tt, w1, t1) /\
    documents w1 = documents w /\ requests w1 = requests w /\
    forall e,
      fails env dropIndexes = Some e \/
      (fails env dropIndexes = None /\ fails env createSearchIndex = Some e) ->
      In (LogError "Failed to create vector search index:" e) t1.
Proof.
  intros Hc Hp Hl Hcc. unfold seed_setup.
  rewrite (bind_Ok _ _ _ _ _ _ (eq_refl : tell _ w = (Ok tt, w, _))).
  rewrite (bind_Ok _ _ _ _ _ _ (request_Ok _ _ _ Hc)).
  rewrite (bind_Ok _ _ _ _ _ _ (eq_refl : modify _ w = (Ok tt, _, _))).
  rewrite (bind_Ok _ _ _ _ _ _ (request_Ok _ _ _ Hp)).
  rewrite (bind_Ok _ _ _ _ _ _ (eq_refl : tell _ _ = (Ok tt, _, _))).
  destruct (setupDatabaseAndCollection_run env (set_connected true w) Hl Hcc)
    as (w1 & t1 & E1 & Hd1 & Hr1).
  rewrite (bind_Ok _ _ _ _ _ _ E1).
  destruct (createVectorSearchIndex_returns env w1) as (w2 & t2 & E2 & Hd2 & Hr2 & _ & Hlog).
  rewrite E2. eexists _, _. split; [reflexivity|].
  split; [now rewrite Hd2, Hd1|]. split; [now rewrite Hr2, Hr1|].
  intros e He. destruct (Hlog e He) as [_ Hin].
  repeat (apply in_or_app; right). exact Hin.
Qed.

Lemma seed_ingest_run env w items :
  fails env deleteMany = None -> fails env llm_invoke = None ->
  (exists v, json_of_text env (llm_content env) = Some v /\ parserSchema v = Some items) ->
  exists t,
    Forall (fun e => is_item_event e = false) t /\
    seed_ingest env w =
    (let '(o, w2, t2) :=
       (processBatch env items (mkCollection "inventory_database" "items") 3 ;;
        tell [Log (Text "Database seeding completed")]) (set_documents [] w)
     in (o, w2, Call deleteMany :: t ++ t2)).
Proof.
  intros Hd Hl (v & Hv & Hs). unfold seed_ingest.
  rewrite (bind_Ok _ _ _ _ _ _ (request_Ok _ _ _ Hd)).
  rewrite (bind_Ok _ _ _ _ _ _ (eq_refl : modify _ w = (Ok tt, _, _))).
  rewrite (bind_Ok _ _ _ _ _ _ (eq_refl : tell _ _ = (Ok tt, _, _))).
  assert (Eg : generateSyntheticData env (set_documents [] w)
               = (Ok items, set_documents [] w,
                  [Log (Text "Generating synthetic data..."); Call llm_invoke])).
  { unfold generateSyntheticData, parser_parse, bind, tell, request.
    now rewrite Hl, Hv, Hs. }
  rewrite (bind_Ok _ _ _ _ _ _ Eg).
  rewrite (bind_Ok _ _ _ _ _ _ (eq_refl : tell _ _ = (Ok tt, _, _))).
  match goal with
  | |- context [bind ?m ?f ?x] => destruct (bind m f x) as [[o w2] t2]
  end.
  exists [Log (Text "Cleared existing data from items collection");
          Log (Text "Generating synthetic data..."); Call llm_invoke;
          Log (Generated (length items))].
  split; [repeat constructor|reflexivity].
Qed.

(** What the [catch] clause and the [finally] block add to the [try] block. *)
Lemma seedDatabase_run env w o w2 t :
  seedDatabase_try env w = (o, w2, t) -> o <> Diverge ->
  documents (world_of (seedDatabase env w)) = documents w2 /\
  trace_of (seedDatabase env w)
  = t ++ match o with
         | Throw e => [LogError "Error seeding database:" e]
         | _ => []
         end ++ [Call client_close].
Proof.
  intros E Hnd.
  unfold seedDatabase, try_finally, try_catch, client_close', bind, request, modify, tell.
  rewrite E. unfold world_of, trace_of.
  destruct o as [[]|e|]; [| |now destruct Hnd];
    destruct (fails env client_close); simpl; rewrite <- ?app_assoc; auto.
Qed.

(** A run that gets as far as [processBatch]: the provisioning, the
    clearing, the generation, and then the batches. *)
Lemma seedDatabase_try_reaches env w items :
  reaches_ingestion env w items ->
  exists w1 ts ti,
    documents w1 = [] /\ requests w1 = requests w /\
    Forall (fun e => is_setup_event e = true) ts /\
    Forall (fun e => is_item_event e = false) ti /\
    (forall e,
        fails env dropIndexes = Some e \/
        (fails env dropIndexes = None /\ fails env createSearchIndex = Some e) ->
        In (LogError "Failed to create vector search index:" e) ts) /\
    seedDatabase_try env w =
    (let '(o, w2, t2) :=
       (processBatch env items (mkCollection "inventory_database" "items") 3 ;;
        tell [Log (Text "Database seeding completed")]) w1
     in (o, w2, ts ++ Call deleteMany :: ti ++ t2)).
Proof.
  intros (Hc & Hp & Hl & Hcc & Hd & Hi & Hv).
  destruct (seed_setup_run env w Hc Hp Hl Hcc) as (w1 & t1 & E1 & Hd1 & Hr1 & Hlog).
  destruct (seed_ingest_run env w1 items Hd Hi Hv) as (t & Ht & E2).
  pose proof (emits_seed_setup env w) as Hsetup.
  unfold trace_of in Hsetup. rewrite E1 in Hsetup. simpl in Hsetup.
  exists (set_documents [] w1), t1, t.
  split; [reflexivity|]. split; [exact Hr1|].
  split; [exact Hsetup|]. split; [exact Ht|]. split; [exact Hlog|].
  rewrite seedDatabase_try_split, (bind_Ok _ _ _ _ _ _ E1), E2.
  destruct ((processBatch env items (mkCollection "inventory_database" "items") 3 ;;
             tell [Log (Text "Database seeding completed")]) (set_documents [] w1))
    as [[o w2] t2].
  reflexivity.
Qed.

Lemma seedDatabase_outcome env w :
  outcome_of (seedDatabase env w)
  = match fails env client_close with None => Ok tt | Some e => Throw e end.
Proof.
  destruct (seedDatabase_caught env w) as (w1 & t1 & E & _).
  unfold seedDatabase, try_finally. rewrite E.
  unfold client_close', bind, request, modify, outcome_of.
  now destruct (fails env client_close).
Qed.

(** C2. Let the embedding request or the write for record [k] (counted from
    zero, in processing order) be the first to fail, with error [e].  Then
    the records before it are in the collection at the end of the run, in
    order, and nothing else is; the records summarized are those up to and
    including record [k]; the embedding requests are those of records
    [0..k] and the writes those of records [0..k-1], with that of record [k]
    if it is the write that failed; the run ends, and the last it does is log
    the error and close the connection. *)
Theorem C2_failure_propagation
    (env : Env) (w : World) (items : list Item) (k : nat) (e : Error) :
  reaches_ingestion env w items ->
  (k < length items)%nat ->
  (forall j, (j < k)%nat -> item_ok env (requests w + j)) ->
  item_fails env (requests w + k) e ->
  map metadata (documents (world_of (seedDatabase env w))) = firstn k items /\
  summarized (trace_of (seedDatabase env w)) = firstn (S k) items /\
  embedded (trace_of (seedDatabase env w)) = seq (requests w) (S k) /\
  (inserted (trace_of (seedDatabase env w)) = seq (requests w) k \/
   inserted (trace_of (seedDatabase env w)) = seq (requests w) (S k)) /\
  outcome_of (seedDatabase env w) <> Diverge /\
  exists t,
    trace_of (seedDatabase env w)
    = t ++ [LogError "Error seeding database:" e; Call client_close].
Proof.
  intros Hreach Hk Hok Hfail.
  destruct (seedDatabase_try_reaches env w items Hreach)
    as (w1 & ts & ti & Hdocs1 & Hreq1 & Hts & Hti & _ & Etry).
  apply setup_events_not_item in Hts.
  destruct (split_at k items Hk) as (x & l2 & Hitems & Hfirst & Hlen).
  set (coll := mkCollection "inventory_database" "items") in *.
  destruct (forOf_first_failure env coll (firstn k items) x l2 w1 e)
    as (w2 & t2 & Eflat & Hdocs2 & Hsum & Hemb & Hins & _).
  { intros j Hj. rewrite Hreq1. apply Hok. lia. }
  { now rewrite Hreq1, Hlen. }
  rewrite <- Hitems in Eflat. rewrite Hlen, Hreq1 in *.
  destruct (processBatch_flat env items coll 3 w1 ltac:(lia)) as (Ho & Hw & Ht).
  rewrite Eflat in Ho, Hw, Ht. unfold outcome_of, world_of, trace_of in Ho, Hw, Ht.
  destruct (processBatch env items coll 3 w1) as [[o3 w3] t3] eqn:Epb.
  simpl in Ho, Hw, Ht. subst o3 w3.
  rewrite (bind_Throw _ _ _ _ _ _ Epb) in Etry.
  destruct (seedDatabase_run env w _ _ _ Etry ltac:(discriminate)) as [Hd Htr].
  destruct (item_projections_filter t3) as (P1 & P2 & P3).
  destruct (item_projections_none ts Hts) as (N1 & N2 & N3).
  destruct (item_projections_none ti Hti) as (M1 & M2 & M3).
  rewrite Ht in P1, P2, P3.
  split; [now rewrite Hd, Hdocs2, Hdocs1|].
  rewrite Htr. unfold summarized, embedded, inserted in *.
  rewrite !flat_map_app. cbn [flat_map app].
  rewrite !flat_map_app, N1, N2, N3, M1, M2, M3, <- P1, <- P2, <- P3.
  cbn [flat_map app]. rewrite !app_nil_r.
  split; [now rewrite Hsum, Hfirst|]. split; [exact Hemb|]. split; [exact Hins|].
  split.
  - rewrite seedDatabase_outcome. destruct (fails env client_close); discriminate.
  - exists (ts ++ Call deleteMany :: ti ++ t3).
    rewrite <- !app_assoc. simpl. now rewrite <- !app_assoc.
Qed.

(** Ten records of which the fifth cannot be embedded. *)
Lemma C2_failure_propagation_witness :
  map metadata
    (documents
       (world_of (seedDatabase
                    (sampleEnv (rejecting [embedDocuments 4] (RequestError "quota"))
                       tenCandidates)
                    emptyWorld)))
  = firstn 4 tenItems /\
  summarized
    (trace_of (seedDatabase
                 (sampleEnv (rejecting [embedDocuments 4] (RequestError "quota"))
                    tenCandidates)
                 emptyWorld))
  = firstn 5 tenItems.
Proof.
  destruct (C2_failure_propagation
              (sampleEnv (rejecting [embedDocuments 4] (RequestError "quota"))
                 tenCandidates)
              emptyWorld tenItems 4 (RequestError "quota")) as (H1 & H2 & _).
  - repeat (split; [reflexivity|]). exists tenCandidates. split; reflexivity.
  - simpl. lia.
  - intros j Hj. do 4 (destruct j as [|j]; [split; reflexivity|]). lia.
  - left. reflexivity.
  - split; [exact H1|exact H2].
Defined.

(** C8. A failure of [dropIndexes] or of [createSearchIndex] is caught in
    [createVectorSearchIndex], which logs it and returns normally, leaving
    the collection without the index.  The run goes on: the failure is
    logged, then the collection is cleared, and when the requests of the
    items succeed every record is stored. *)
Theorem C8_index_failure_not_fatal
    (env : Env) (w : World) (items : list Item) (e : Error) :
  fails env dropIndexes = Some e \/
  (fails env dropIndexes = None /\ fails env createSearchIndex = Some e) ->
  (exists t,
      createVectorSearchIndex env w = (Ok tt, w, t) /\
      In (LogError "Failed to create vector search index:" e) t) /\
  (reaches_ingestion env w items ->
   (exists ts rest,
       trace_of (seedDatabase env w) = ts ++ Call deleteMany :: rest /\
       In (LogError "Failed to create vector search index:" e) ts) /\
   ((forall j, (j < length items)%nat -> item_ok env (requests w + j)) ->
    map metadata (documents (world_of (seedDatabase env w))) = items /\
    inserted (trace_of (seedDatabase env w)) = seq (requests w) (length items))).
Proof.
  intros Hidx. split.
  - destruct (createVectorSearchIndex_returns env w) as (w1 & t & E & _ & _ & _ & H).
    destruct (H e Hidx) as [-> Hin]. now exists t.
  - intros Hreach.
    destruct (seedDatabase_try_reaches env w items Hreach)
      as (w1 & ts & ti & Hdocs1 & Hreq1 & Hts & Hti & Hlog & Etry).
    set (coll := mkCollection "inventory_database" "items") in *.
    pose proof (terminates_processBatch env items coll 3 ltac:(lia) w1) as Hnd.
    destruct (processBatch_flat env items coll 3 w1 ltac:(lia)) as (Ho & Hw & Ht).
    unfold bind, tell in Etry. unfold outcome_of, world_of, trace_of in Ho, Hw, Ht, Hnd.
    destruct (processBatch env items coll 3 w1) as [[o3 w3] t3] eqn:Epb.
    simpl in Ho, Hw, Ht, Hnd. split.
    + exists ts.
      destruct o3 as [[]|e3|]; [| |now destruct Hnd];
        destruct (seedDatabase_run env w _ _ _ Etry ltac:(discriminate)) as [_ ->];
        eexists; (split; [now rewrite <- app_assoc|now apply Hlog]).
    + intros Hok.
      destruct (forOf_all_ok env coll items w1) as (w2 & t2 & E & Hd2 & _ & _ & _ & Hins & _).
      { intros j Hj. rewrite Hreq1. now apply Hok. }
      rewrite E in Ho, Hw, Ht. simpl in Ho, Hw, Ht. subst o3 w3.
      destruct (seedDatabase_run env w _ _ _ Etry ltac:(discriminate)) as [Hd Htr].
      destruct (item_projections_filter t3) as (_ & _ & P3).
      destruct (item_projections_none ts (setup_events_not_item ts Hts)) as (_ & _ & N3).
      destruct (item_projections_none ti Hti) as (_ & _ & M3).
      rewrite Ht in P3. split; [now rewrite Hd, Hd2, Hdocs1|].
      rewrite Htr. unfold inserted in *.
      rewrite !flat_map_app. cbn [flat_map app].
      rewrite !flat_map_app, N3, M3, <- P3. cbn [flat_map app].
      now rewrite !app_nil_r, Hins, Hreq1.
Qed.

Lemma C8_index_failure_not_fatal_witness :
  map metadata
    (documents
       (world_of (seedDatabase
                    (sampleEnv (rejecting [createSearchIndex] (RequestError "exists"))
                       tenCandidates)
                    emptyWorld)))
  = tenItems.
Proof.
  destruct (C8_index_failure_not_fatal
              (sampleEnv (rejecting [createSearchIndex] (RequestError "exists"))
                 tenCandidates)
              emptyWorld tenItems (RequestError "exists")) as (_ & H).
  - right. split; reflexivity.
  - destruct H as (_ & H).
    + repeat (split; [reflexivity|]). exists tenCandidates. split; reflexivity.
    + apply H. intros j Hj. split; reflexivity.
Defined.

(** * Further properties of the script *)

(** ** The check of the environment variables *)

Lemma isMissing_spec penv name :
  isMissing penv name = false <->
  exists value, penv name = Some value /\ value <> EmptyString.
Proof.
  unfold isMissing. destruct (penv name) as [[|c s]|]; split; try discriminate.
  - intros (value & [= <-] & H). now destruct H.
  - intros _. now exists (String c s).
  - reflexivity.
  - intros (value & [=] & _).
Qed.

(** X1. [validateEnvironmentVariables] returns exactly when both
    [MONGODB_ATLAS_URI] and [GOOGLE_API_KEY] are set to a non-empty string.
    Otherwise it exits with status 1, and the names it lists, one per line
    after three spaces and a dash, are exactly the required variables that
    are unset or empty. *)
Theorem X1_validateEnvironmentVariables (penv : ProcessEnv) :
  ((exists stdout, validateEnvironmentVariables penv = Validated stdout) <->
   (exists uri key,
       penv "MONGODB_ATLAS_URI" = Some uri /\ uri <> EmptyString /\
       penv "GOOGLE_API_KEY" = Some key /\ key <> EmptyString)) /\
  (forall code stderr,
      validateEnvironmentVariables penv = Exited code stderr ->
      code = 1 /\
      forall name,
        In ("   - " ++ name)%string stderr <->
        (name = "MONGODB_ATLAS_URI" \/ name = "GOOGLE_API_KEY") /\
        isMissing penv name = true).
Proof.
  pose proof (isMissing_spec penv "MONGODB_ATLAS_URI") as Hu.
  pose proof (isMissing_spec penv "GOOGLE_API_KEY") as Hk.
  unfold validateEnvironmentVariables. cbn [filter].
  destruct (isMissing penv "MONGODB_ATLAS_URI") eqn:Eu,
           (isMissing penv "GOOGLE_API_KEY") eqn:Ek; cbn; split.
  all: try (split;
            [ intros (out & H); discriminate H
            | intros (uri & key & H1 & H2 & H3 & H4);
              first [ assert (true = false) by (apply Hu; eauto); discriminate
                    | assert (true = false) by (apply Hk; eauto); discriminate ] ]).
  all: try (intros code stderr H; injection H as <- <-; split; [reflexivity|];
            intros name; split;
            [ intros Hin; simpl in Hin;
              repeat (destruct Hin as [Hin|Hin];
                      [ first [ discriminate Hin
                              | injection Hin as <-; split; [auto|assumption] ] | ]);
              contradiction
            | intros [[-> | ->] Hm]; try congruence; simpl; auto 10 ]).
  - split; [intros _|eauto].
    destruct (proj1 Hu eq_refl) as (uri & ? & ?).
    destruct (proj1 Hk eq_refl) as (key & ? & ?). eauto 10.
  - intros code stderr H. discriminate H.
Qed.

Lemma X1_validateEnvironmentVariables_witness :
  validateEnvironmentVariables
    (fun name => if String.eqb name "GOOGLE_API_KEY" then Some "" else None)
  = Exited 1
      (["❌ Missing required environment variables:";
        "   - MONGODB_ATLAS_URI"; "   - GOOGLE_API_KEY";
        (newline ++ "📝 Please create a .env file in the server directory with the following variables:")%string;
        "   MONGODB_ATLAS_URI=your_mongodb_connection_string";
        "   GOOGLE_API_KEY=your_google_api_key";
        (newline ++ "🔗 Get your Google API key from: https://makersuite.google.com/app/apikey")%string]) /\
  isMissing (fun name => if String.eqb name "GOOGLE_API_KEY" then Some "" else None)
    "GOOGLE_API_KEY" = true.
Proof.
  split; [reflexivity|].
  apply (proj1 (proj2 (proj2 (X1_validateEnvironmentVariables
                                 (fun name => if String.eqb name "GOOGLE_API_KEY"
                                              then Some "" else None)) 1 _ eq_refl)
                  "GOOGLE_API_KEY")).
  simpl. auto.
Defined.
(** ** More on the schema *)

Lemma parse_all_strings l : parse_all z_string (map JStr l) = Some l.
Proof. induction l as [|s l IH]; simpl; [reflexivity|now rewrite IH]. Qed.

Lemma reviewSchema_json_of_review r :
  PrimFloat.is_nan (rating r) = false -> reviewSchema (json_of_review r) = Some r.
Proof.
  intros H. destruct r as [d x c]. simpl in H.
  unfold reviewSchema, json_of_review, obind, field, z_number. simpl. now rewrite H.
Qed.

Lemma parse_all_reviews l :
  Forall (fun r => PrimFloat.is_nan (rating r) = false) l ->
  parse_all reviewSchema (map json_of_review l) = Some l.
Proof.
  induction 1 as [|r l Hr H IH]; [reflexivity|].
  cbn [map parse_all]. now rewrite (reviewSchema_json_of_review r Hr), IH.
Qed.

(** X2. The schema accepts every record: the object of a record none of
    whose numbers is [NaN] passes [itemSchema], whatever the sign or size of
    its prices and ratings and however many categories and reviews it has,
    and validation gives the record back. *)
Theorem X2_itemSchema_accepts_records (it : Item) :
  numbers_defined it -> itemSchema (json_of_item it) = Some it.
Proof.
  intros (Hf & Hs & Hr).
  destruct it as [id name descr br [st ci sa po co] [full sale] cats revs nt].
  simpl in Hf, Hs, Hr.
  unfold itemSchema, json_of_item, json_of_address, json_of_prices, addressSchema,
    pricesSchema, obind, field, z_array, z_number.
  cbn -[parse_all PrimFloat.is_nan].
  now rewrite Hf, Hs, parse_all_strings, (parse_all_reviews revs Hr).
Qed.

Lemma X2_itemSchema_accepts_records_witness :
  itemSchema (json_of_item (sampleItem (-5)%float 1000000%float))
  = Some (sampleItem (-5)%float 1000000%float).
Proof.
  apply X2_itemSchema_accepts_records.
  repeat split; repeat constructor.
Defined.




Lemma assoc_cons_other key k v fields :
  k <> key -> assoc key ((k, v) :: fields) = assoc key fields.
Proof.
  intros H. simpl. destruct (String.eqb_spec k key); [contradiction|reflexivity].
Qed.

(** X4. Keys that the schema does not declare are ignored: adding one to a
    candidate changes neither whether it is accepted nor the record that
    validation returns. *)
Theorem X4_itemSchema_ignores_other_keys fields k v :
  ~ In k itemKeys ->
  itemSchema (JObj ((k, v) :: fields)) = itemSchema (JObj fields).
Proof.
  intros Hk. unfold itemSchema, field.
  rewrite !assoc_cons_other by (intros ->; apply Hk; simpl; auto 10).
  reflexivity.
Qed.

Lemma X4_itemSchema_ignores_other_keys_witness :
  itemSchema (JObj [("_id", JStr "65f0"); ("item_id", JStr "chair-1")])
  = itemSchema (JObj [("item_id", JStr "chair-1")]).
Proof.
  apply X4_itemSchema_ignores_other_keys.
  simpl. intuition discriminate.
Defined.

Lemma parse_all_accepts {A} (s : schema A) l :
  Forall (fun v => s v <> None) l -> exists out, parse_all s l = Some out.
Proof.
  induction 1 as [|v l Hv Hall IH]; [now exists []|].
  destruct IH as (out & IH). simpl.
  destruct (s v) as [a|]; [|now destruct Hv]. rewrite IH. eauto.
Qed.

(** X5. [generateSyntheticData] does not count the records of the reply:
    when the request succeeds and the reply is an array all of whose elements
    pass [itemSchema], it returns as many records as the array has elements,
    be that none or more than the ten asked for, and changes nothing. *)
Theorem X5_generateSyntheticData_any_length (env : Env) (w : World) (l : list json) :
  fails env llm_invoke = None ->
  json_of_text env (llm_content env) = Some (JArr l) ->
  Forall (fun v => itemSchema v <> None) l ->
  exists items,
    generateSyntheticData env w
    = (Ok items, w, [Log (Text "Generating synthetic data..."); Call llm_invoke]) /\
    length items = length l /\
    Forall2 (fun v item => itemSchema v = Some item) l items.
Proof.
  intros Hl Hv Hall.
  destruct (parse_all_accepts itemSchema l Hall) as (items & Hp). exists items.
  pose proof (proj1 (parse_all_Forall2 _ _ _) Hp) as HF.
  split; [|split; [|exact HF]].
  - unfold generateSyntheticData, parser_parse, bind, tell, request.
    rewrite Hl, Hv. unfold parserSchema, z_array. now rewrite Hp.
  - symmetry. eapply Forall2_length; eauto.
Qed.

Lemma X5_generateSyntheticData_any_length_witness :
  exists items,
    generateSyntheticData (sampleEnv noFailure (JArr [])) emptyWorld
    = (Ok items, emptyWorld, [Log (Text "Generating synthetic data..."); Call llm_invoke]) /\
    length items = 0%nat.
Proof.
  destruct (X5_generateSyntheticData_any_length
              (sampleEnv noFailure (JArr [])) emptyWorld [] eq_refl eq_refl
              (Forall_nil _)) as (items & H1 & H2 & _).
  now exists items.
Defined.
(** ** Provisioning *)

(** X6. [setupDatabaseAndCollection] asks for the creation of the
    collection exactly when the listing succeeded and showed none; it never
    touches the documents; and once it has returned, the collection exists
    and a second call only lists: it creates nothing and changes nothing. *)
Theorem X6_setupDatabaseAndCollection_idempotent (env : Env) (w : World) :
  documents (world_of (setupDatabaseAndCollection env w)) = documents w /\
  (In (Call createCollection) (trace_of (setupDatabaseAndCollection env w)) <->
   fails env listCollections = None /\ items_collection_exists w = false) /\
  (outcome_of (setupDatabaseAndCollection env w) = Ok tt ->
   items_collection_exists (world_of (setupDatabaseAndCollection env w)) = true /\
   setupDatabaseAndCollection env (world_of (setupDatabaseAndCollection env w))
   = (Ok tt, world_of (setupDatabaseAndCollection env w),
      [Log (Text "Setting up database and collection..."); Call listCollections;
       Log (Text "'items' collection already exists in 'inventory_database' database")])).
Proof.
  unfold setupDatabaseAndCollection, bind, request, tell, modify, gets,
    world_of, trace_of, outcome_of.
  destruct (fails env listCollections) as [e|] eqn:El; simpl.
  - split; [reflexivity|]. split; [|discriminate].
    split; [intros [H|[H|[]]]; discriminate H|intros [H _]; discriminate H].
  - destruct (items_collection_exists w) eqn:Ex; simpl.
    + split; [reflexivity|]. split.
      * split; [intros [H|[H|[H|[]]]]; discriminate H|intros [_ H]; discriminate H].
      * intros _. split; [exact Ex|]. now rewrite Ex.
    + destruct (fails env createCollection) as [e|] eqn:Ec; simpl.
      * split; [reflexivity|]. split; [|discriminate].
        split; [auto|intros _; auto].
      * split; [reflexivity|]. split; [split; [auto|intros _; auto]|].
        intros _. split; reflexivity.
Qed.

Lemma X6_setupDatabaseAndCollection_idempotent_witness :
  items_collection_exists
    (world_of (setupDatabaseAndCollection (sampleEnv noFailure JNull) emptyWorld)) = true /\
  In (Call createCollection)
    (trace_of (setupDatabaseAndCollection (sampleEnv noFailure JNull) emptyWorld)).
Proof.
  destruct (X6_setupDatabaseAndCollection_idempotent (sampleEnv noFailure JNull) emptyWorld)
    as (_ & H2 & H3).
  split.
  - apply H3. reflexivity.
  - apply H2. split; reflexivity.
Defined.

(** X7. [createVectorSearchIndex] always returns normally and never touches
    the documents.  It asks for the index exactly when [dropIndexes]
    succeeded.  It announces success exactly when both requests succeeded,
    and then the collection has the index asked for, named [vector_index], on
    the path [embedding], of 768 dimensions and cosine similarity.  When one
    of the two is rejected it logs that error instead.  (What
    [dropIndexes] does to the indexes that were there is not part of the
    state, and nothing is said of it.) *)
Theorem X7_createVectorSearchIndex_contained (env : Env) (w : World) :
  outcome_of (createVectorSearchIndex env w) = Ok tt /\
  documents (world_of (createVectorSearchIndex env w)) = documents w /\
  (In (Call createSearchIndex) (trace_of (createVectorSearchIndex env w)) <->
   fails env dropIndexes = None) /\
  (In (Log (Text "Successfully created vector search index"))
      (trace_of (createVectorSearchIndex env w)) <->
   fails env dropIndexes = None /\ fails env createSearchIndex = None) /\
  (fails env dropIndexes = None -> fails env createSearchIndex = None ->
   In (mkSearchIndex "vector_index" "vectorSearch" "embedding" 768 "cosine")
      (search_indexes (world_of (createVectorSearchIndex env w)))) /\
  (forall e,
      fails env dropIndexes = Some e \/
      (fails env dropIndexes = None /\ fails env createSearchIndex = Some e) ->
      exists t,
        trace_of (createVectorSearchIndex env w)
        = t ++ [LogError "Failed to create vector search index:" e]).
Proof.
  unfold createVectorSearchIndex, try_catch, bind, request, tell, modify,
    world_of, trace_of, outcome_of.
  destruct (fails env dropIndexes) as [e1|] eqn:Ed; simpl.
  - split; [reflexivity|]. split; [reflexivity|]. split; [|split; [|split]].
    + split; [intros [H|[H|[]]]; discriminate H|discriminate].
    + split; [intros [H|[H|[]]]; discriminate H|intros [H _]; discriminate H].
    + discriminate.
    + intros e [[= <-]|[[=] _]]. now exists [Call dropIndexes].
  - destruct (fails env createSearchIndex) as [e2|] eqn:Ec; simpl.
    + split; [reflexivity|]. split; [reflexivity|]. split; [|split; [|split]].
      * split; auto.
      * split; [intros [H|[H|[H|[H|[]]]]]; discriminate H|intros [_ H]; discriminate H].
      * discriminate.
      * intros e [[=]|[_ [= <-]]].
        now exists [Call dropIndexes; Log (Text "Creating vector search index...");
                    Call createSearchIndex].
    + split; [reflexivity|]. split; [reflexivity|]. split; [|split; [|split]].
      * split; auto.
      * split; auto 10.
      * intros _ _. apply in_or_app. right. now left.
      * intros e [[=]|[_ [=]]].
Qed.

Lemma X7_createVectorSearchIndex_contained_witness :
  In (mkSearchIndex "vector_index" "vectorSearch" "embedding" 768 "cosine")
     (search_indexes
        (world_of (createVectorSearchIndex (sampleEnv noFailure JNull) emptyWorld))) /\
  exists t,
    trace_of (createVectorSearchIndex
                (sampleEnv (rejecting [createSearchIndex] (RequestError "exists")) JNull)
                emptyWorld)
    = t ++ [LogError "Failed to create vector search index:" (RequestError "exists")].
Proof.
  split.
  - apply (proj1 (proj2 (proj2 (proj2 (proj2 (X7_createVectorSearchIndex_contained
                                                 (sampleEnv noFailure JNull)
                                                 emptyWorld))))));
      reflexivity.
  - apply (proj2 (proj2 (proj2 (proj2 (proj2 (X7_createVectorSearchIndex_contained
                                                 (sampleEnv
                                                    (rejecting [createSearchIndex]
                                                       (RequestError "exists")) JNull)
                                                 emptyWorld)))))).
    right. split; reflexivity.
Defined.

(** ** What one item writes *)

Lemma createItemSummary_run env item w :
  createItemSummary env item w = (Ok (summaryText env item), w, [Summarize item]).
Proof. reflexivity. Qed.

Lemma processItem_run env coll item w :
  processItem env coll item w =
  match fails env (embedDocuments (requests w)) with
  | Some e =>
      (Throw e, next_request w, [Summarize item; Call (embedDocuments (requests w))])
  | None =>
      match fails env (insertMany (requests w)) with
      | Some e =>
          (Throw e, next_request w,
           [Summarize item; Call (embedDocuments (requests w));
            Call (insertMany (requests w))])
      | None =>
          (Ok tt, set_documents (documents w ++ [storedDocOf env item]) (next_request w),
           [Summarize item; Call (embedDocuments (requests w));
            Call (insertMany (requests w)); Log (SavedRecord (item_id item))])
      end
  end.
Proof.
  unfold processItem. rewrite (bind_Ok _ _ _ _ _ _ (createItemSummary_run env item w)).
  unfold fromDocuments, bind, tell, ret, gets, modify, request.
  cbn [requests next_request app map pageContent doc_metadata documents].
  destruct (fails env (embedDocuments (requests w))); [reflexivity|].
  destruct (fails env (insertMany (requests w))); reflexivity.
Qed.

Lemma storedDocOf_consistent env item : doc_consistent env (storedDocOf env item).
Proof. split; reflexivity. Qed.

(** The documents written by the loop over the items are those of a prefix
    of the items, in order. *)
Lemma forOf_writes_prefix env coll :
  forall l w,
    exists k,
      (k <= length l)%nat /\
      documents (world_of (forOf l (processItem env coll) w))
      = documents w ++ map (storedDocOf env) (firstn k l) /\
      (outcome_of (forOf l (processItem env coll) w) = Ok tt -> k = length l).
Proof.
  induction l as [|x l IH]; intros w.
  - exists 0%nat. simpl. rewrite app_nil_r. auto.
  - cbn [forOf]. pose proof (processItem_run env coll x w) as E.
    destruct (fails env (embedDocuments (requests w))) as [e|].
    { exists 0%nat. rewrite (bind_Throw _ _ _ _ _ _ E). simpl. rewrite app_nil_r.
      split; [lia|]. split; [reflexivity|discriminate]. }
    destruct (fails env (insertMany (requests w))) as [e|].
    { exists 0%nat. rewrite (bind_Throw _ _ _ _ _ _ E). simpl. rewrite app_nil_r.
      split; [lia|]. split; [reflexivity|discriminate]. }
    rewrite (bind_Ok _ _ _ _ _ _ E).
    destruct (IH (set_documents (documents w ++ [storedDocOf env x]) (next_request w)))
      as (k & Hk & Hdocs & Hok).
    unfold world_of, outcome_of in *.
    destruct (forOf l (processItem env coll)
                (set_documents (documents w ++ [storedDocOf env x]) (next_request w)))
      as [[o w'] t].
    exists (S k). simpl in *. split; [lia|]. split.
    + now rewrite Hdocs, <- app_assoc.
    + intros H. now rewrite Hok.
Qed.

(** ** Invariants of the state *)

Lemma preserves_ret {A} I (a : A) : preserves I (ret a).
Proof. intros w H. exact H. Qed.

Lemma preserves_throw {A} I e : preserves I (@throw A e).
Proof. intros w H. exact H. Qed.

Lemma preserves_diverge {A} I : preserves I (@diverge A).
Proof. intros w H. exact H. Qed.

Lemma preserves_tell I t : preserves I (tell t).
Proof. intros w H. exact H. Qed.

Lemma preserves_gets {A} I (f : World -> A) : preserves I (gets f).
Proof. intros w H. exact H. Qed.

Lemma preserves_request I env op : preserves I (request env op).
Proof. intros w H. unfold request, world_of. now destruct (fails env op). Qed.

Lemma preserves_modify (I : World -> Prop) f :
  (forall w, I w -> I (f w)) -> preserves I (modify f).
Proof. intros Hf w H. now apply Hf. Qed.

Lemma preserves_bind {A B} I (m : M A) (f : A -> M B) :
  preserves I m -> (forall a, preserves I (f a)) -> preserves I (bind m f).
Proof.
  intros Hm Hf w H. specialize (Hm w H). unfold bind, world_of in *.
  destruct (m w) as [[[a|e|] w1] t1]; simpl in *; auto.
  specialize (Hf a w1 Hm). unfold world_of in Hf.
  now destruct (f a w1) as [[o w2] t2].
Qed.

Lemma preserves_try_catch {A} I (m : M A) h :
  preserves I m -> (forall e, preserves I (h e)) -> preserves I (try_catch m h).
Proof.
  intros Hm Hh w H. specialize (Hm w H). unfold try_catch, world_of in *.
  destruct (m w) as [[[a|e|] w1] t1]; simpl in *; auto.
  specialize (Hh e w1 Hm). unfold world_of in Hh.
  now destruct (h e w1) as [[o w2] t2].
Qed.

Lemma preserves_forOf {A} I (l : list A) body :
  (forall x, preserves I (body x)) -> preserves I (forOf l body).
Proof.
  intros H. induction l as [|x l IH]; simpl.
  - apply preserves_ret.
  - apply preserves_bind; auto.
Qed.

Ltac preserves_step :=
  first [ apply preserves_bind; [|intros]
        | apply preserves_try_catch; [|intros]
        | apply preserves_tell | apply preserves_request
        | apply preserves_ret | apply preserves_throw | apply preserves_gets
        | apply preserves_modify; intros ? ?; simpl; assumption
        | match goal with
          | |- preserves _ (if ?c then _ else _) => destruct c
          | |- preserves _ (match ?c with _ => _ end) => destruct c
          end ].

Lemma preserves_processItem env coll item :
  preserves (fun w => Forall (doc_consistent env) (documents w))
    (processItem env coll item).
Proof.
  intros w H. rewrite processItem_run.
  destruct (fails env (embedDocuments (requests w))); [exact H|].
  destruct (fails env (insertMany (requests w))); [exact H|].
  unfold world_of. simpl. apply Forall_app. split; [exact H|].
  constructor; [apply storedDocOf_consistent|constructor].
Qed.

Lemma preserves_processBatch_loop env items coll B :
  forall fuel i,
    preserves (fun w => Forall (doc_consistent env) (documents w))
      (processBatch_loop env fuel items coll B i).
Proof.
  induction fuel as [|fuel IH]; intros i; [apply preserves_diverge|].
  rewrite processBatch_loop_S. destruct (i <? Z.of_nat (length items)).
  - apply preserves_bind; [apply preserves_tell|intros _].
    apply preserves_bind;
      [apply preserves_forOf; intros x; apply preserves_processItem|intros _].
    apply preserves_bind; [unfold forceGC; repeat preserves_step|intros _].
    apply preserves_bind; [apply preserves_tell|intros _]. apply IH.
  - apply preserves_ret.
Qed.

Lemma preserves_generateSyntheticData I env : preserves I (generateSyntheticData env).
Proof. unfold generateSyntheticData, parser_parse. repeat preserves_step. Qed.

Lemma preserves_seed_setup env D :
  preserves (fun w => documents w = D) (seed_setup env).
Proof.
  unfold seed_setup, setupDatabaseAndCollection, createVectorSearchIndex.
  repeat preserves_step.
Qed.
(** ** The batch loop, whatever happens *)

Lemma sleptMs_app t1 t2 : sleptMs (t1 ++ t2) = sleptMs t1 + sleptMs t2.
Proof.
  induction t1 as [|e t1 IH]; [reflexivity|].
  simpl. rewrite IH. destruct e; lia.
Qed.

Lemma sleptMs_items t :
  Forall (fun e => is_item_event e = true) t -> sleptMs t = 0.
Proof.
  induction 1 as [|e t He H IH]; [reflexivity|].
  simpl. rewrite IH. destruct e; try reflexivity; discriminate.
Qed.

Lemma sleptMs_pauseEvents env : sleptMs (pauseEvents env) = 1000.
Proof. unfold pauseEvents. now destruct (has_gc env). Qed.

Lemma sleptMs_completedBatches env B L :
  forall segs i,
    Forall (Forall (fun e => is_item_event e = true)) segs ->
    sleptMs (completedBatches env B L i segs) = 1000 * Z.of_nat (length segs).
Proof.
  induction segs as [|seg segs IH]; intros i Hsegs; [reflexivity|].
  inversion Hsegs as [|? ? Hseg Hrest]; subst.
  cbn [completedBatches length]. change (sleptMs (?e :: ?t)) with (sleptMs ([e] ++ t)).
  rewrite !sleptMs_app, (sleptMs_items seg Hseg), sleptMs_pauseEvents, (IH _ Hrest).
  simpl sleptMs. lia.
Qed.

(** X8. With a batch size of at least one, the documents that
    [processBatch] has written when it stops, however it stops, are those of
    the first [k] records for some [k], in the order of the records and after
    the documents that were there; and [k] is the number of records when it
    returns normally. *)
Theorem X8_processBatch_writes_prefix
    (env : Env) (items : list Item) (coll : Collection) (B : Z) (w : World) :
  1 <= B ->
  exists k,
    (k <= length items)%nat /\
    documents (world_of (processBatch env items coll B w))
    = documents w ++ map (storedDocOf env) (firstn k items) /\
    (outcome_of (processBatch env items coll B w) = Ok tt -> k = length items).
Proof.
  intros HB.
  destruct (processBatch_flat env items coll B w HB) as (Ho & Hw & _).
  destruct (forOf_writes_prefix env coll items w) as (k & Hk & Hdocs & Hok).
  exists k. rewrite Ho, Hw. auto.
Qed.

Lemma X8_processBatch_writes_prefix_witness :
  exists k,
    (k <= 10)%nat /\
    documents
      (world_of (processBatch
                   (sampleEnv (rejecting [insertMany 6] (RequestError "full")) JNull)
                   tenItems itemsCollection 3 emptyWorld))
    = map (storedDocOf (sampleEnv (rejecting [insertMany 6] (RequestError "full")) JNull))
        (firstn k tenItems).
Proof.
  destruct (X8_processBatch_writes_prefix
              (sampleEnv (rejecting [insertMany 6] (RequestError "full")) JNull)
              tenItems itemsCollection 3 emptyWorld ltac:(lia)) as (k & Hk & Hd & _).
  exists k. split; [exact Hk|exact Hd].
Defined.

(** X9. When the requests of every record succeed and the batch size is at
    least one, [processBatch] returns normally, has written one document per
    record, has made one embedding request per record, and has slept 1000 ms
    once per batch, the last batch included: 1000 * ceil(L/B) ms in all. *)
Theorem X9_processBatch_all_succeed
    (env : Env) (items : list Item) (coll : Collection) (B : Z) (w : World) :
  1 <= B ->
  (forall j, (j < length items)%nat -> item_ok env (requests w + j)) ->
  outcome_of (processBatch env items coll B w) = Ok tt /\
  documents (world_of (processBatch env items coll B w))
  = documents w ++ map (storedDocOf env) items /\
  requests (world_of (processBatch env items coll B w)) = (requests w + length items)%nat /\
  embedded (trace_of (processBatch env items coll B w))
  = seq (requests w) (length items) /\
  sleptMs (trace_of (processBatch env items coll B w))
  = 1000 * ceilDiv (Z.of_nat (length items)) B.
Proof.
  intros HB Hok.
  destruct (processBatch_flat env items coll B w HB) as (Ho & Hw & Ht).
  destruct (forOf_all_ok env coll items w Hok)
    as (w' & t & E & _ & Hreq & _ & Hemb & _ & _).
  destruct (forOf_writes_prefix env coll items w) as (k & _ & Hdocs & Hk).
  rewrite E in Ho, Hw, Ht, Hdocs, Hk. unfold outcome_of, world_of, trace_of in *.
  simpl in Ho, Hw, Ht, Hdocs, Hk.
  rewrite (Hk eq_refl), firstn_all in Hdocs.
  split; [exact Ho|]. split; [now rewrite Hw|]. split; [now rewrite Hw|].
  split.
  - destruct (item_projections_filter (snd (processBatch env items coll B w)))
      as (_ & P & _).
    now rewrite <- P, Ht.
  - destruct (batches_loop_spec items B HB (S (length items)) 0)
      as (bs & Eb & _ & Hlen & _); [lia|lia|].
    rewrite Z.sub_0_r in Hlen. revert Ho. unfold processBatch.
    rewrite (processBatch_loop_batches _ _ _ _ _ _ _ _ Eb). intros Ho.
    destruct (runBatches_trace env items coll B bs 0 w) as (segs & Hsegs & H).
    unfold outcome_of, trace_of in H. rewrite Ho in H. destruct H as [-> Hl].
    rewrite sleptMs_completedBatches by exact Hsegs. now rewrite Hl, Hlen.
Qed.

Lemma X9_processBatch_all_succeed_witness :
  sleptMs (trace_of (processBatch (sampleEnv noFailure JNull) tenItems itemsCollection 3
                       emptyWorld))
  = 1000 * ceilDiv 10 3.
Proof.
  apply (X9_processBatch_all_succeed (sampleEnv noFailure JNull) tenItems
           itemsCollection 3 emptyWorld); [lia|].
  intros j Hj. split; reflexivity.
Defined.

Lemma bind_never_returns {A B} (m : M A) (f : A -> M B) w :
  (forall a w1 b, outcome_of (f a w1) <> Ok b) ->
  forall b, outcome_of (bind m f w) <> Ok b.
Proof.
  intros H b. unfold bind, outcome_of.
  destruct (m w) as [[[a|e|] w1] t1]; simpl; try discriminate.
  specialize (H a w1 b). unfold outcome_of in H.
  now destruct (f a w1) as [[o w2] t2].
Qed.

(** X10. A batch size below one is harmless on an empty list and fatal on
    any other: without records [processBatch] returns at once, for every
    batch size, having done nothing; with at least one record and a batch
    size of zero or less no number of iterations lets it return normally. *)
Theorem X10_processBatch_nonpositive_batchSize (env : Env) (coll : Collection) (w : World) :
  (forall B, processBatch env [] coll B w = (Ok tt, w, [])) /\
  (forall B items fuel,
      B <= 0 -> items <> [] ->
      outcome_of (processBatch_loop env fuel items coll B 0 w) <> Ok tt).
Proof.
  split; [reflexivity|].
  intros B items fuel HB Hne.
  destruct (Z.eq_dec B 0) as [->|HB0].
  - rewrite processBatch_loop_nonpos by (auto; lia). discriminate.
  - destruct fuel as [|fuel]; [discriminate|].
    rewrite processBatch_loop_S.
    destruct (Z.ltb_spec 0 (Z.of_nat (length items))) as [_|Hle];
      [|destruct items; [now destruct Hne|simpl in Hle; lia]].
    apply bind_never_returns. intros _ w1 [].
    apply bind_never_returns. intros _ w2 [].
    apply bind_never_returns. intros _ w3 [].
    apply bind_never_returns. intros _ w4 [].
    rewrite processBatch_loop_nonpos by (auto; lia). discriminate.
Qed.

Lemma X10_processBatch_nonpositive_batchSize_witness :
  outcome_of (processBatch_loop (sampleEnv noFailure JNull) 100 tenItems itemsCollection
                (-2) 0 emptyWorld) <> Ok tt.
Proof.
  apply (proj2 (X10_processBatch_nonpositive_batchSize
                  (sampleEnv noFailure JNull) itemsCollection emptyWorld));
    [lia|discriminate].
Defined.
(** ** The whole run, whatever happens *)

(** X11. At the end of a run of [seedDatabase] the collection is exactly as
    it was whenever the [deleteMany] was rejected or was not reached, the run
    having failed before it.  Otherwise the [deleteMany] was issued and
    accepted, and every document in the collection is whole: its text is the
    summary of its own record and its vector the embedding of its own text. *)
Theorem X11_collection_untouched_or_consistent (env : Env) (w : World) :
  (fails env deleteMany <> None \/
   ~ In (Call deleteMany) (trace_of (seedDatabase env w)) ->
   documents (world_of (seedDatabase env w)) = documents w) /\
  (fails env deleteMany = None ->
   In (Call deleteMany) (trace_of (seedDatabase env w)) ->
   Forall (doc_consistent env) (documents (world_of (seedDatabase env w)))).
Proof.
  pose proof (terminates_seedDatabase_try env w) as Hnd.
  pose proof (preserves_seed_setup env (documents w) w eq_refl) as Hsetup.
  pose proof (emits_seed_setup env w) as Hev.
  unfold outcome_of, world_of, trace_of in Hnd, Hsetup, Hev.
  destruct (seedDatabase_try env w) as [[o w2] t] eqn:E. simpl in Hnd.
  destruct (seedDatabase_run env w o w2 t E Hnd) as [-> ->].
  rewrite seedDatabase_try_split in E.
  assert (H : (documents w2 = documents w /\
               (fails env deleteMany <> None \/ ~ In (Call deleteMany) t)) \/
              (fails env deleteMany = None /\ In (Call deleteMany) t /\
               Forall (doc_consistent env) (documents w2))).
  { assert (Hno : forall t1, Forall (fun e => is_setup_event e = true) t1 ->
                             ~ In (Call deleteMany) t1).
    { intros t1 Ht1 Hin. rewrite Forall_forall in Ht1.
      specialize (Ht1 _ Hin). discriminate Ht1. }
    destruct (seed_setup env w) as [[[[]|e|] w1] t1] eqn:Es; simpl in Hsetup, Hev.
    - rewrite (bind_Ok _ _ _ _ _ _ Es) in E. unfold seed_ingest in E.
      destruct (fails env deleteMany) as [e|] eqn:Ed.
      + rewrite (bind_Throw _ _ _ _ _ _ (request_Throw _ _ _ _ Ed)) in E.
        injection E as _ <- _. left. split; [exact Hsetup|left; discriminate].
      + rewrite (bind_Ok _ _ _ _ _ _ (request_Ok _ _ _ Ed)) in E.
        rewrite (bind_Ok _ _ _ _ _ _ (eq_refl : modify _ w1 = (Ok tt, _, _))) in E.
        right. split; [reflexivity|].
        match type of E with
        | context [bind ?m ?f ?x] =>
            assert (Hk : preserves (fun w => Forall (doc_consistent env) (documents w))
                           (bind m f));
            [|specialize (Hk x (Forall_nil _)); unfold world_of in Hk;
              destruct (bind m f x) as [[o' w'] t']]
        end.
        * apply preserves_bind; [apply preserves_tell|intros _].
          apply preserves_bind; [apply preserves_generateSyntheticData|intros items].
          apply preserves_bind; [apply preserves_tell|intros _].
          apply preserves_bind; [apply preserves_processBatch_loop|intros _].
          apply preserves_tell.
        * simpl in E, Hk. injection E as _ <- <-. split; [|exact Hk].
          apply in_or_app. right. now left.
    - rewrite (bind_Throw _ _ _ _ _ _ Es) in E. injection E as _ <- <-.
      left. split; [exact Hsetup|right; now apply Hno].
    - unfold bind in E. rewrite Es in E. injection E as _ <- <-.
      left. split; [exact Hsetup|right; now apply Hno]. }
  split.
  - intros Hd. destruct H as [[H _]|(Hf & Hin & _)]; [exact H|].
    destruct Hd as [Hd|Hd]; [contradiction|].
    destruct Hd. apply in_or_app. now left.
  - intros Hf Hin. destruct H as [[_ [Hd|Hd]]|(_ & _ & H)]; [contradiction| |exact H].
    apply in_app_or in Hin. destruct Hin as [Hin|Hin]; [contradiction|].
    apply in_app_or in Hin.
    destruct Hin as [Hin|[Hin|[]]]; [|discriminate Hin].
    destruct o as [[]|e|]; [destruct Hin| |destruct Hin].
    destruct Hin as [Hin|[]]. discriminate Hin.
Qed.

Lemma X11_collection_untouched_or_consistent_witness :
  documents
    (world_of (seedDatabase
                 (sampleEnv (rejecting [listCollections] (RequestError "denied"))
                    tenCandidates)
                 (mkWorld false true [] [mkStoredDoc "old" [] (sampleItem 1%float 1%float)] 7)))
  = [mkStoredDoc "old" [] (sampleItem 1%float 1%float)] /\
  Forall (doc_consistent (sampleEnv noFailure tenCandidates))
    (documents
       (world_of (seedDatabase (sampleEnv noFailure tenCandidates)
                    (mkWorld false true []
                       [mkStoredDoc "old" [] (sampleItem 1%float 1%float)] 7)))).
Proof.
  split.
  - apply (proj1 (X11_collection_untouched_or_consistent
                    (sampleEnv (rejecting [listCollections] (RequestError "denied"))
                       tenCandidates)
                    (mkWorld false true []
                       [mkStoredDoc "old" [] (sampleItem 1%float 1%float)] 7))).
    right. vm_compute. intuition discriminate.
  - apply (proj2 (X11_collection_untouched_or_consistent
                    (sampleEnv noFailure tenCandidates)
                    (mkWorld false true []
                       [mkStoredDoc "old" [] (sampleItem 1%float 1%float)] 7))).
    + reflexivity.
    + vm_compute. auto 20.
Defined.

(** X12. Full replacement: in a run in which every request up to the
    generation succeeds and the requests of every record succeed, the
    collection holds at the end exactly the documents of the generated
    records, in their order, whatever it held before; and the last the run
    does is announce the completion and close the connection. *)
Theorem X12_successful_run_replaces_collection
    (env : Env) (w : World) (items : list Item) :
  reaches_ingestion env w items ->
  (forall j, (j < length items)%nat -> item_ok env (requests w + j)) ->
  documents (world_of (seedDatabase env w)) = map (storedDocOf env) items /\
  exists t,
    trace_of (seedDatabase env w)
    = t ++ [Log (Text "Database seeding completed"); Call client_close].
Proof.
  intros Hreach Hok.
  destruct (seedDatabase_try_reaches env w items Hreach)
    as (w1 & ts & ti & Hdocs1 & Hreq1 & _ & _ & _ & Etry).
  set (coll := mkCollection "inventory_database" "items") in *.
  destruct (processBatch_flat env items coll 3 w1 ltac:(lia)) as (Ho & Hw & _).
  destruct (forOf_all_ok env coll items w1) as (w2 & t2 & E & _).
  { intros j Hj. rewrite Hreq1. now apply Hok. }
  destruct (forOf_writes_prefix env coll items w1) as (k & _ & Hdocs & Hk).
  rewrite E in Ho, Hw, Hdocs, Hk. unfold outcome_of, world_of in Ho, Hw, Hdocs, Hk.
  simpl in Ho, Hw, Hdocs, Hk. rewrite (Hk eq_refl), firstn_all, Hdocs1 in Hdocs.
  destruct (processBatch env items coll 3 w1) as [[o3 w3] t3] eqn:Epb.
  simpl in Ho, Hw. subst o3 w3.
  rewrite (bind_Ok _ _ _ _ _ _ Epb) in Etry. unfold tell in Etry.
  destruct (seedDatabase_run env w _ _ _ Etry ltac:(discriminate)) as [Hd Htr].
  split; [now rewrite Hd|].
  exists (ts ++ Call deleteMany :: ti ++ t3). rewrite Htr.
  rewrite <- !app_assoc. simpl. now rewrite <- !app_assoc.
Qed.

Lemma X12_successful_run_replaces_collection_witness :
  documents
    (world_of (seedDatabase (sampleEnv noFailure tenCandidates)
                 (mkWorld false true [] [mkStoredDoc "old" [] (sampleItem 1%float 1%float)] 7)))
  = map (storedDocOf (sampleEnv noFailure tenCandidates)) tenItems.
Proof.
  apply (X12_successful_run_replaces_collection (sampleEnv noFailure tenCandidates)
           (mkWorld false true [] [mkStoredDoc "old" [] (sampleItem 1%float 1%float)] 7)
           tenItems).
  - repeat (split; [reflexivity|]). exists tenCandidates. split; reflexivity.
  - intros j Hj. split; reflexivity.
Defined.

Lemma generateSyntheticData_fails env w e :
  generation_fails env e ->
  generateSyntheticData env w
  = (Throw e, w, [Log (Text "Generating synthetic data..."); Call llm_invoke]).
Proof.
  unfold generateSyntheticData, parser_parse, bind, tell, request, throw.
  intros [H|(H & -> & [Hj|(v & Hj & Hs)])]; rewrite H; [reflexivity| |];
    rewrite Hj; [reflexivity|now rewrite Hs].
Qed.

(** X13. The collection is cleared before the records exist: in a run in
    which the provisioning and the [deleteMany] succeed and the generation
    step then fails, be it by a rejected request, a reply that is not JSON or
    a reply that does not pass the schema, the collection is empty at the
    end, whatever it held before, and the last the run does is log that
    error and close the connection. *)
Theorem X13_failed_generation_leaves_collection_empty
    (env : Env) (w : World) (e : Error) :
  setup_succeeds env ->
  fails env deleteMany = None ->
  generation_fails env e ->
  documents (world_of (seedDatabase env w)) = [] /\
  exists t,
    trace_of (seedDatabase env w)
    = t ++ [LogError "Error seeding database:" e; Call client_close].
Proof.
  intros (Hc & Hp & Hl & Hcc) Hd Hgen.
  destruct (seed_setup_run env w Hc Hp Hl Hcc) as (w1 & t1 & E1 & _).
  assert (Etry : seedDatabase_try env w
                 = (Throw e, set_documents [] w1,
                    t1 ++ [Call deleteMany;
                           Log (Text "Cleared existing data from items collection");
                           Log (Text "Generating synthetic data..."); Call llm_invoke])).
  { rewrite seedDatabase_try_split, (bind_Ok _ _ _ _ _ _ E1). unfold seed_ingest.
    rewrite (bind_Ok _ _ _ _ _ _ (request_Ok _ _ _ Hd)).
    rewrite (bind_Ok _ _ _ _ _ _ (eq_refl : modify _ w1 = (Ok tt, _, _))).
    rewrite (bind_Ok _ _ _ _ _ _ (eq_refl : tell _ _ = (Ok tt, _, _))).
    rewrite (bind_Throw _ _ _ _ _ _ (generateSyntheticData_fails env _ e Hgen)).
    reflexivity. }
  destruct (seedDatabase_run env w _ _ _ Etry ltac:(discriminate)) as [Hdocs Htr].
  split; [exact Hdocs|]. rewrite Htr. eexists. reflexivity.
Qed.

Lemma X13_failed_generation_leaves_collection_empty_witness :
  documents
    (world_of (seedDatabase (sampleEnv noFailure (JArr [JNull]))
                 (mkWorld false true [] [mkStoredDoc "old" [] (sampleItem 1%float 1%float)] 7)))
  = [].
Proof.
  apply (X13_failed_generation_leaves_collection_empty
           (sampleEnv noFailure (JArr [JNull]))
           (mkWorld false true [] [mkStoredDoc "old" [] (sampleItem 1%float 1%float)] 7)
           (OutputParserException "reply")).
  - repeat split.
  - reflexivity.
  - right. split; [reflexivity|]. split; [reflexivity|].
    right. exists (JArr [JNull]). split; reflexivity.
Defined.

(** X14. The promise of the script never rejects: [main] always ends
    normally.  It is the run of [seedDatabase] and nothing more when the
    connection closes, and when [client.close()] throws, that error, the only
    one [seedDatabase] lets through, is written to the console at the end. *)
Theorem X14_main_never_rejects (env : Env) (w : World) :
  outcome_of (main env w) = Ok tt /\
  (fails env client_close = None -> main env w = seedDatabase env w) /\
  (forall e,
      fails env client_close = Some e ->
      world_of (main env w) = world_of (seedDatabase env w) /\
      trace_of (main env w) = trace_of (seedDatabase env w) ++ [LogError "" e]).
Proof.
  pose proof (seedDatabase_outcome env w) as Ho.
  unfold main, try_catch, tell, outcome_of, world_of, trace_of in *.
  destruct (seedDatabase env w) as [[o w'] t]. simpl in Ho.
  destruct (fails env client_close) as [e|]; subst o; simpl.
  - split; [reflexivity|]. split; [discriminate|]. intros e' [= <-]. auto.
  - split; [reflexivity|]. split; [reflexivity|]. discriminate.
Qed.

Lemma X14_main_never_rejects_witness :
  trace_of (main (sampleEnv (rejecting [client_close] (RequestError "gone")) JNull)
              emptyWorld)
  = trace_of (seedDatabase (sampleEnv (rejecting [client_close] (RequestError "gone")) JNull)
                emptyWorld)
      ++ [LogError "" (RequestError "gone")].
Proof.
  apply (proj2 (proj2 (X14_main_never_rejects
                         (sampleEnv (rejecting [client_close] (RequestError "gone")) JNull)
                         emptyWorld)) (RequestError "gone")).
  reflexivity.
Defined.
(** ** The discipline of the requests *)

Lemma app_eq_split {A} (a b t1 t2 : list A) (x : A) :
  a ++ b = t1 ++ x :: t2 ->
  (exists a2, a = t1 ++ x :: a2) \/ (exists b1, t1 = a ++ b1 /\ b = b1 ++ x :: t2).
Proof.
  revert t1. induction a as [|e a IH]; intros t1 H.
  - right. now exists t1.
  - destruct t1 as [|e' t1]; simpl in H; injection H as -> H.
    + left. now exists a.
    + destruct (IH t1 H) as [(a2 & ->)|(b1 & -> & ->)].
      * left. now exists a2.
      * right. now exists b1.
Qed.

Lemma write_after_embedding_app env a b :
  write_after_embedding env a -> write_after_embedding env b ->
  write_after_embedding env (a ++ b).
Proof.
  intros Ha Hb t1 t2 j H.
  destruct (app_eq_split _ _ _ _ _ H) as [(a2 & E)|(b1 & -> & E)].
  - exact (Ha _ _ _ E).
  - destruct (Hb _ _ _ E) as [Hin Hf]. split; [|exact Hf].
    apply in_or_app. now right.
Qed.

Lemma write_after_embedding_none env t :
  Forall (fun e => is_insert e = false) t -> write_after_embedding env t.
Proof.
  intros Ht t1 t2 j ->. rewrite Forall_forall in Ht.
  specialize (Ht (Call (insertMany j))). simpl in Ht.
  assert (true = false) by (apply Ht; apply in_or_app; right; now left).
  discriminate.
Qed.

Lemma writes_ordered_bind {A B} env (m : M A) (f : A -> M B) :
  writes_ordered env m -> (forall a, writes_ordered env (f a)) ->
  writes_ordered env (bind m f).
Proof.
  intros Hm Hf w. specialize (Hm w). unfold bind, trace_of in *.
  destruct (m w) as [[[a|e|] w1] t1]; simpl in *; auto.
  specialize (Hf a w1). unfold trace_of in Hf.
  destruct (f a w1) as [[o w2] t2]. simpl in *.
  now apply write_after_embedding_app.
Qed.

Lemma writes_ordered_quiet {A} env (m : M A) :
  emits (fun e => negb (is_insert e)) m -> writes_ordered env m.
Proof.
  intros H w. apply write_after_embedding_none.
  eapply Forall_impl; [|apply H]. intros e He. now apply negb_true_iff in He.
Qed.

Lemma writes_ordered_forOf {A} env (l : list A) body :
  (forall x, writes_ordered env (body x)) -> writes_ordered env (forOf l body).
Proof.
  intros H. induction l as [|x l IH]; simpl.
  - apply writes_ordered_quiet, emits_ret.
  - apply writes_ordered_bind; auto.
Qed.

Lemma writes_ordered_processItem env coll item :
  writes_ordered env (processItem env coll item).
Proof.
  intros w. rewrite processItem_run.
  destruct (fails env (embedDocuments (requests w))) as [e|] eqn:Ee.
  - apply write_after_embedding_none. repeat constructor.
  - assert (H : forall rest,
               Forall (fun e => is_insert e = false) rest ->
               write_after_embedding env
                 ([Summarize item; Call (embedDocuments (requests w));
                   Call (insertMany (requests w))] ++ rest)).
    { intros rest Hrest t1 t2 j H.
      destruct t1 as [|e1 [|e2 [|e3 t1]]]; simpl in H; try discriminate H.
      - injection H as <- <- <- _. split; [simpl; auto|exact Ee].
      - injection H as _ _ _ H. exfalso. rewrite Forall_forall in Hrest.
        assert (true = false); [|discriminate].
        apply (Hrest (Call (insertMany j))). rewrite H.
        apply in_or_app. right. now left. }
    destruct (fails env (insertMany (requests w))) as [e|].
    + apply (H []). constructor.
    + apply (H [Log (SavedRecord (item_id item))]). repeat constructor.
Qed.

Lemma writes_ordered_processBatch_loop env items coll B :
  forall fuel i, writes_ordered env (processBatch_loop env fuel items coll B i).
Proof.
  induction fuel as [|fuel IH]; intros i.
  - apply writes_ordered_quiet, emits_diverge.
  - rewrite processBatch_loop_S. destruct (i <? Z.of_nat (length items)).
    + apply writes_ordered_bind;
        [apply writes_ordered_quiet, emits_tell; reflexivity|intros _].
      apply writes_ordered_bind;
        [apply writes_ordered_forOf; intros x; apply writes_ordered_processItem|intros _].
      apply writes_ordered_bind;
        [apply writes_ordered_quiet, emits_forceGC; reflexivity|intros _].
      apply writes_ordered_bind;
        [apply writes_ordered_quiet, emits_tell; reflexivity|intros _].
      apply IH.
    + apply writes_ordered_quiet, emits_ret.
Qed.

Lemma forOf_discipline env coll :
  forall l w,
    exists k m n,
      (k <= m <= n)%nat /\ (n <= S k)%nat /\ (n <= length l)%nat /\
      documents (world_of (forOf l (processItem env coll) w))
      = documents w ++ map (storedDocOf env) (firstn k l) /\
      summarized (trace_of (forOf l (processItem env coll) w)) = firstn n l /\
      embedded (trace_of (forOf l (processItem env coll) w)) = seq (requests w) n /\
      inserted (trace_of (forOf l (processItem env coll) w)) = seq (requests w) m /\
      (forall j, (j < m)%nat -> fails env (embedDocuments (requests w + j)) = None) /\
      (forall j, (j < k)%nat -> fails env (insertMany (requests w + j)) = None) /\
      ((m < n)%nat -> fails env (embedDocuments (requests w + m)) <> None) /\
      ((k < m)%nat -> fails env (insertMany (requests w + k)) <> None).
Proof.
  induction l as [|x l IH]; intros w.
  - exists 0%nat, 0%nat, 0%nat. simpl. rewrite app_nil_r.
    repeat split; auto; intros; lia.
  - cbn [forOf]. pose proof (processItem_run env coll x w) as E.
    destruct (fails env (embedDocuments (requests w))) as [e|] eqn:Ee.
    { exists 0%nat, 0%nat, 1%nat. rewrite (bind_Throw _ _ _ _ _ _ E).
      simpl. rewrite app_nil_r, Nat.add_0_r.
      repeat split; auto; try lia; try (intros; lia).
      intros _. now rewrite Ee. }
    destruct (fails env (insertMany (requests w))) as [e|] eqn:Ei.
    { exists 0%nat, 1%nat, 1%nat. rewrite (bind_Throw _ _ _ _ _ _ E).
      simpl. rewrite app_nil_r, Nat.add_0_r.
      repeat split; auto; try lia; try (intros; lia).
      - intros j Hj. replace j with 0%nat by lia. now rewrite Nat.add_0_r.
      - intros _. now rewrite Ei. }
    rewrite (bind_Ok _ _ _ _ _ _ E).
    destruct (IH (set_documents (documents w ++ [storedDocOf env x]) (next_request w)))
      as (k & m & n & Hkm & Hn & Hl & Hdocs & Hsum & Hemb & Hins & He & Hi & Hne & Hni).
    unfold world_of, trace_of in *.
    destruct (forOf l (processItem env coll)
                (set_documents (documents w ++ [storedDocOf env x]) (next_request w)))
      as [[o w'] t].
    exists (S k), (S m), (S n). simpl in *.
    unfold summarized, embedded, inserted in *. simpl.
    rewrite Hdocs, Hsum, Hemb, Hins, <- app_assoc.
    assert (Hshift : forall j, (requests w + S j = S (requests w + j))%nat) by (intros; lia).
    repeat split; auto; try lia.
    + intros [|j] Hj; [now rewrite Nat.add_0_r|]. rewrite Hshift. apply He. lia.
    + intros [|j] Hj; [now rewrite Nat.add_0_r|]. rewrite Hshift. apply Hi. lia.
    + intros Hlt. rewrite Hshift. apply Hne. lia.
    + intros Hlt. rewrite Hshift. apply Hni. lia.
Qed.

(** X15. In every run of [processBatch] with a batch size of at least one,
    whichever requests are rejected.  The records summarized are the first
    [n] records, each once and in order.  The embedding requests are numbered
    consecutively, one per record summarized, and none is repeated.  The
    writes are those of the first [m] of them, and the embedding of each was
    obtained: a write comes after the embedding request of the same record,
    and that request was not rejected.  The first [k] writes were accepted
    and are the documents added.  An embedding request without a write was
    rejected, and so was a write without a document; each can only be the
    last request of the run. *)
Theorem X15_processBatch_request_discipline
    (env : Env) (items : list Item) (coll : Collection) (B : Z) (w : World) :
  1 <= B ->
  write_after_embedding env (trace_of (processBatch env items coll B w)) /\
  exists k m n,
    (k <= m <= n)%nat /\ (n <= S k)%nat /\ (n <= length items)%nat /\
    documents (world_of (processBatch env items coll B w))
    = documents w ++ map (storedDocOf env) (firstn k items) /\
    summarized (trace_of (processBatch env items coll B w)) = firstn n items /\
    embedded (trace_of (processBatch env items coll B w)) = seq (requests w) n /\
    inserted (trace_of (processBatch env items coll B w)) = seq (requests w) m /\
    (forall j, (j < m)%nat -> fails env (embedDocuments (requests w + j)) = None) /\
    (forall j, (j < k)%nat -> fails env (insertMany (requests w + j)) = None) /\
    ((m < n)%nat -> fails env (embedDocuments (requests w + m)) <> None) /\
    ((k < m)%nat -> fails env (insertMany (requests w + k)) <> None).
Proof.
  intros HB. split; [apply writes_ordered_processBatch_loop|].
  destruct (processBatch_flat env items coll B w HB) as (_ & Hw & Ht).
  destruct (forOf_discipline env coll items w)
    as (k & m & n & Hkm & Hn & Hl & Hdocs & Hsum & Hemb & Hins & He & Hi & Hne & Hni).
  destruct (item_projections_filter (trace_of (processBatch env items coll B w)))
    as (P1 & P2 & P3).
  exists k, m, n. rewrite <- P1, <- P2, <- P3, Ht, Hw.
  repeat split; auto; lia.
Qed.

Lemma X15_processBatch_request_discipline_witness :
  write_after_embedding
    (sampleEnv (rejecting [insertMany 6] (RequestError "full")) JNull)
    (trace_of (processBatch
                 (sampleEnv (rejecting [insertMany 6] (RequestError "full")) JNull)
                 tenItems itemsCollection 3 emptyWorld)) /\
  exists k m n,
    (k <= m <= n)%nat /\ (n <= S k)%nat /\
    embedded
      (trace_of (processBatch
                   (sampleEnv (rejecting [insertMany 6] (RequestError "full")) JNull)
                   tenItems itemsCollection 3 emptyWorld))
    = seq 0 n /\
    inserted
      (trace_of (processBatch
                   (sampleEnv (rejecting [insertMany 6] (RequestError "full")) JNull)
                   tenItems itemsCollection 3 emptyWorld))
    = seq 0 m.
Proof.
  destruct (X15_processBatch_request_discipline
              (sampleEnv (rejecting [insertMany 6] (RequestError "full")) JNull)
              tenItems itemsCollection 3 emptyWorld ltac:(lia))
    as (Hord & k & m & n & H1 & H2 & _ & _ & _ & H3 & H4 & _).
  split; [exact Hord|]. exists k, m, n. auto.
Defined.

(** X16. Nothing is asked of the database before the connection is
    verified: in a run in which [client.connect()] or the ping is rejected,
    the only requests are the connection, the ping and the closing, and the
    state of the database is as it was. *)
Theorem X16_no_request_before_ping (env : Env) (w : World) :
  fails env client_connect <> None \/ fails env admin_ping <> None ->
  (forall op,
      In (Call op) (trace_of (seedDatabase env w)) ->
      op = client_connect \/ op = admin_ping \/ op = client_close) /\
  documents (world_of (seedDatabase env w)) = documents w /\
  search_indexes (world_of (seedDatabase env w)) = search_indexes w /\
  items_collection_exists (world_of (seedDatabase env w)) = items_collection_exists w.
Proof.
  intros H.
  assert (Etry : exists e t,
             seedDatabase_try env w
             = (Throw e, match fails env client_connect with
                        | Some _ => w
                        | None => set_connected true w
                        end, t) /\
             forall op, In (Call op) t -> op = client_connect \/ op = admin_ping).
  { unfold seedDatabase_try.
    rewrite (bind_Ok _ _ _ _ _ _ (eq_refl : tell _ w = (Ok tt, w, _))).
    destruct (fails env client_connect) as [e|] eqn:Ec.
    - rewrite (bind_Throw _ _ _ _ _ _ (request_Throw _ _ _ _ Ec)).
      eexists _, _. split; [reflexivity|].
      intros op [Hin|[Hin|[]]]; inversion Hin; auto.
    - rewrite (bind_Ok _ _ _ _ _ _ (request_Ok _ _ _ Ec)).
      rewrite (bind_Ok _ _ _ _ _ _ (eq_refl : modify _ w = (Ok tt, _, _))).
      destruct (fails env admin_ping) as [e|] eqn:Ep;
        [|destruct H as [H|H]; now destruct H].
      rewrite (bind_Throw _ _ _ _ _ _ (request_Throw _ _ _ _ Ep)).
      eexists _, _. split; [reflexivity|].
      intros op [Hin|[Hin|[Hin|[]]]]; inversion Hin; auto. }
  destruct Etry as (e & t & Etry & Ht).
  unfold seedDatabase, try_finally, try_catch. rewrite Etry.
  unfold client_close', bind, request, modify, tell, world_of, trace_of.
  destruct (fails env client_close), (fails env client_connect); simpl;
    (split; [|repeat split]);
    intros op Hin; apply in_app_or in Hin;
    (destruct Hin as [Hin|[Hin|[]]]; [|inversion Hin; auto]);
    apply in_app_or in Hin;
    (destruct Hin as [Hin|[Hin|[]]]; [|inversion Hin]);
    destruct (Ht op Hin); auto.
Qed.

Lemma X16_no_request_before_ping_witness :
  documents
    (world_of (seedDatabase
                 (sampleEnv (rejecting [admin_ping] (RequestError "timeout")) tenCandidates)
                 (mkWorld false true [] [mkStoredDoc "old" [] (sampleItem 1%float 1%float)] 7)))
  = [mkStoredDoc "old" [] (sampleItem 1%float 1%float)].
Proof.
  apply (X16_no_request_before_ping
           (sampleEnv (rejecting [admin_ping] (RequestError "timeout")) tenCandidates)
           (mkWorld false true [] [mkStoredDoc "old" [] (sampleItem 1%float 1%float)] 7)).
  right. discriminate.
Defined.
